(** * zechub-wiki: the shielded-pool chart and the PNG export hook

    A shallow embedding of

    - [src/components/ShieldedPoolChart.tsx]: the data-loading effect, the
      render branches, the scales and the tooltip hit-test [handleTooltip];
    - [src/constants/walletsConfig.ts] (second part, the hook
      [useExportDashboardAsPNG]): the label text and the DOM mutation of
      [handleSaveToPng].

    Conventions.

    - A JavaScript [Date] is its time value: an integral number of
      milliseconds, or NaN for an invalid date.  It is modelled as
      [option Z], [None] being NaN.  Every comparison with NaN is false.
    - A [number] coming out of [JSON.parse] is a finite double; the supply
      values and the pixel sizes are modelled as exact rationals [Q], and
      so is the arithmetic of the scales.  The rounding of a domain by
      [nice], whose result is decided by the rounding of doubles, is not
      modelled: [nice] is a parameter.
    - Array indices are [Z]; reading an array outside its bounds gives
      [undefined] ([None]), reading a property of [undefined] throws.
    - The routines of d3 (vendored by visx) that the component calls are
      transcribed in [Module D3]. *)

From Stdlib Require Import ZArith QArith Qround Qabs Lia Lqa Ascii String.
From stdpp Require Import base option list strings gmap.

Local Open Scope Z_scope.

(** ** Results of code that can throw *)

(** [Val v]: normal completion with [v]; [Throw]: a [TypeError] was thrown;
    [Fuel]: the model's loop budget was exhausted (never the case for the
    inputs covered by the theorems, which prove a [Val]). *)
Inductive res (A : Type) : Type :=
  | Val (v : A)
  | Throw
  | Fuel.
Arguments Val {A} v.
Arguments Throw {A}.
Arguments Fuel {A}.

(** ** JavaScript numbers that are integral or NaN *)

Module Js.

(** The time value of a [Date], and the result of a comparator. *)
Definition num := option Z.

Definition NaN : num := None.

(** [a < b] *)
Definition lt (a b : num) : bool :=
  match a, b with
  | Some x, Some y => x <? y
  | _, _ => false
  end.

(** [a > b] *)
Definition gt (a b : num) : bool := lt b a.

(** [a >= b] *)
Definition ge (a b : num) : bool :=
  match a, b with
  | Some x, Some y => y <=? x
  | _, _ => false
  end.

(** [a !== b] on numbers (NaN differs from everything, itself included) *)
Definition strict_ne (a b : num) : bool :=
  match a, b with
  | Some x, Some y => negb (x =? y)
  | _, _ => true
  end.

(** [a - b] *)
Definition sub (a b : num) : num :=
  match a, b with
  | Some x, Some y => Some (x - y)
  | _, _ => None
  end.

(** [n >>> 1] for a non-negative integer [n]: the 32-bit unsigned value
    of [n], shifted right by one. *)
Definition ushr1 (n : Z) : Z := Z.shiftr (n mod 2 ^ 32) 1.

(** [a[i]] for an array [a] and a number [i]. *)
Definition index {A} (a : list A) (i : Z) : option A :=
  if i <? 0 then None else a !! Z.to_nat i.

End Js.

(** ** Data model *)

(** [type ShieldedAmountDatum = { close: string; supply: number }] *)
Record ShieldedAmountDatum : Type := {
  close : string;
  supply : Q;
}.

(** A [Date] object, as its time value. *)
Definition Date := Js.num.

(** ** d3-array, as used by the chart *)

Module D3.

(** [a < b] on finite numbers *)
Definition Qltb (a b : Q) : bool := negb (Qle_bool b a).

(** [ascending(a, b)] of d3-array, on two [Date]s (neither is null):
    [a < b ? -1 : a > b ? 1 : a >= b ? 0 : NaN]. *)
Definition ascending (a b : Date) : Js.num :=
  if Js.lt a b then Some (-1)
  else if Js.gt a b then Some 1
  else if Js.ge a b then Some 0
  else Js.NaN.

Section Bisector.
Context {A : Type}.
(** the accessor given to [bisector]; it is applied to [a[mid]], and
    throws when that is [undefined] *)
Variable f : A → Date.

(** [compare2 = (d, x) => ascending(f(d), x)] *)
Definition compare2 (d : A) (x : Date) : Js.num := ascending (f d) x.

(** The [do ... while (lo < hi)] loop of [left]:
<<
  do {
    const mid = (lo + hi) >>> 1;
    if (compare2(a[mid], x) < 0) lo = mid + 1;
    else hi = mid;
  } while (lo < hi);
>>
    One unit of [fuel] is one iteration. *)
Fixpoint left_loop (fuel : nat) (a : list A) (x : Date) (lo hi : Z)
  : res Z :=
  match fuel with
  | O => Fuel
  | S fuel' =>
      let mid := Js.ushr1 (lo + hi) in
      match Js.index a mid with
      | None => Throw
      | Some d =>
          let lo' := if Js.lt (compare2 d x) (Some 0) then mid + 1 else lo in
          let hi' := if Js.lt (compare2 d x) (Some 0) then hi else mid in
          if lo' <? hi' then left_loop fuel' a x lo' hi' else Val lo'
      end
  end.

(** [bisector(f).left(a, x, lo, hi)]:
<<
  if (lo < hi) {
    if (compare1(x, x) !== 0) return hi;
    do { ... } while (lo < hi);
  }
  return lo;
>>
    with [compare1 = ascending]. *)
Definition left (a : list A) (x : Date) (lo hi : Z) : res Z :=
  if lo <? hi then
    if Js.strict_ne (ascending x x) (Some 0) then Val hi
    else left_loop (Z.to_nat (hi - lo)) a x lo hi
  else Val lo.

End Bisector.

(** [max(values, valueof)]: the largest value, [undefined] for no
    value.
<<
    for (let value of values) {
      if ((value = valueof(value, ++index, values)) != null
          && (max < value || (max === undefined && value >= value))) {
        max = value;
      }
    }
>> *)
Definition max {A} (values : list A) (valueof : A → Q) : option Q :=
  fold_left
    (fun (m : option Q) (d : A) =>
       match m with
       | None => Some (valueof d)
       | Some m' => if Qltb m' (valueof d) then Some (valueof d) else m
       end)
    values None.

(** [extent(values, valueof)] on [Date]s: [[min, max]], both [undefined]
    when no value is a valid date. *)
Definition extent {A} (values : list A) (valueof : A → Date)
  : option (Z * Z) :=
  fold_left
    (fun (acc : option (Z * Z)) (d : A) =>
       match acc, valueof d with
       | _, None => acc
       | None, Some v => Some (v, v)
       | Some (mn, mx), Some v =>
           Some (if v <? mn then v else mn, if mx <? v then v else mx)
       end)
    values None.

(** *** d3-scale: continuous scales *)

(** [a / b] on finite numbers; [None] when the quotient is not finite
    (a zero divisor gives an infinity or NaN). *)
Definition fdiv (a b : Q) : option Q :=
  if Qeq_bool b 0 then None else Some (a / b)%Q.

(** [normalize(a, b)] of [continuous.js]:
<<
    return (b -= (a = +a))
        ? function(x) { return (x - a) / b; }
        : constant(isNaN(b) ? NaN : 0.5);
>> *)
Definition normalize (a b : Q) (x : Q) : option Q :=
  let b' := (b - a)%Q in
  if Qeq_bool b' 0 then Some (1 # 2)%Q else fdiv (x - a) b'.

(** [interpolateNumber(a, b)]: [t => a * (1 - t) + b * t] *)
Definition interpolateNumber (a b : Q) (t : Q) : Q :=
  (a * (1 - t) + b * t)%Q.

(** [bimap(domain, range, interpolate)]:
<<
    if (d1 < d0) d0 = normalize(d1, d0), r0 = interpolate(r1, r0);
    else d0 = normalize(d0, d1), r0 = interpolate(r0, r1);
    return function(x) { return r0(d0(x)); };
>> *)
Definition bimap (domain range : Q * Q) (x : Q) : option Q :=
  let '(d0, d1) := domain in
  let '(r0, r1) := range in
  if Qltb d1 d0
  then interpolateNumber r1 r0 <$> normalize d1 d0 x
  else interpolateNumber r0 r1 <$> normalize d0 d1 x.

(** A continuous scale with a two-point domain and range, as visx
    configures it: [domain], then [nice], then [range]. *)
Record Scale : Type := {
  domain : Q * Q;
  range : Q * Q;
}.

(** [scaleLinear({ range, domain, nice })].  [nice] stands for
    [scale.nice()] of d3-scale on a two-point domain.  d3 computes it in
    doubles, with the engine's [Math.log10], [Math.pow], [Math.floor] and
    [Math.ceil]; its result depends on their rounding and is not
    transcribed: it is a parameter of the scale. *)
Definition scaleLinear (nice : Q * Q → Q * Q) (range domain : Q * Q)
  (nice_opt : bool) : Scale :=
  {| domain := if nice_opt then nice domain else domain;
     range := range |}.

(** [scale(x)] for a finite [x]; [None] when the result is not finite. *)
Definition apply (s : Scale) (x : Q) : option Q :=
  bimap (domain s) (range s) x.

End D3.

(** ** The chart component: [ShieldedPoolChart.tsx] *)

Section Chart.

(** [new Date(s)] for a string [s], as the engine parses it: the time
    value, NaN ([None]) for a string it cannot parse. *)
Variable Date_parse : string → Date.

(** [const getDate = (d) => new Date(d.close)] *)
Definition getDate (d : ShieldedAmountDatum) : Date := Date_parse (close d).

(** [const getShieldedValue = (d) => d.supply] *)
Definition getShieldedValue (d : ShieldedAmountDatum) : Q := supply d.

(** [const bisectDate = bisector((d) => new Date(d.close)).left],
    called as [bisectDate(chartData, x0, lo)]: [hi] defaults to
    [a.length]. *)
Definition bisectDate (a : list ShieldedAmountDatum) (x : Date) (lo : Z)
  : res Z :=
  D3.left (fun d => Date_parse (close d)) a x lo (Z.of_nat (length a)).

(** The choice between the two neighbours in [handleTooltip]:
<<
    let d = d0;
    if (d1 && getDate(d1)) {
      d = x0.valueOf() - getDate(d0).valueOf()
            > getDate(d1).valueOf() - x0.valueOf() ? d1 : d0;
    }
>>
    [getDate(d1)] is an object, hence truthy, whenever [d1] is defined;
    [getDate(d0)] throws when [d0] is [undefined]. *)
Definition closer (x0 : Date) (d0 d1 : option ShieldedAmountDatum)
  : res (option ShieldedAmountDatum) :=
  match d1 with
  | None => Val d0
  | Some d1' =>
      match d0 with
      | None => Throw
      | Some d0' =>
          if Js.gt (Js.sub x0 (getDate d0')) (Js.sub (getDate d1') x0)
          then Val (Some d1')
          else Val (Some d0')
      end
  end.

(** [handleTooltip], from the pointer date [x0 = dateScale.invert(x)]
    on; the result is the [tooltipData] handed to [showTooltip].
<<
    const index = bisectDate(chartData, x0, 1);
    const d0 = chartData[index - 1];
    const d1 = chartData[index];
    ...
    showTooltip({ tooltipData: d, tooltipLeft: x,
                  tooltipTop: shieldedValueScale(getShieldedValue(d)) });
>>
    [getShieldedValue(d)] throws when [d] is [undefined]. *)
Definition handleTooltip (chartData : list ShieldedAmountDatum) (x0 : Date)
  : res ShieldedAmountDatum :=
  match bisectDate chartData x0 1 with
  | Val index =>
      let d0 := Js.index chartData (index - 1) in
      let d1 := Js.index chartData index in
      match closer x0 d0 d1 with
      | Val (Some d) => Val d
      | Val None => Throw
      | Throw => Throw
      | Fuel => Fuel
      end
  | Throw => Throw
  | Fuel => Fuel
  end.

(** *** Layout and scales *)

(** The measured [width] and [height] and the [margin] prop. *)
Record Layout : Type := {
  width : Q;
  height : Q;
  margin_top : Q;
  margin_right : Q;
  margin_bottom : Q;
  margin_left : Q;
}.

(** [const innerWidth = width - margin.left - margin.right] *)
Definition innerWidth (l : Layout) : Q :=
  (width l - margin_left l - margin_right l)%Q.

(** [const innerHeight = height - margin.top - margin.bottom] *)
Definition innerHeight (l : Layout) : Q :=
  (height l - margin_top l - margin_bottom l)%Q.

(** [v || 0] for [v] a finite number or [undefined] *)
Definition or0 (v : option Q) : Q :=
  match v with
  | Some q => q
  | None => 0%Q
  end.

(**
<<
    scaleTime({
      range: [margin.left, innerWidth + margin.left],
      domain: extent(chartData, getDate) as [Date, Date],
    })
>>
    [None] when no datum has a valid date: the domain is then
    [[NaN, NaN]] and the scale maps every date to NaN. *)
Definition dateScale (chartData : list ShieldedAmountDatum) (l : Layout)
  : option D3.Scale :=
  match D3.extent chartData getDate with
  | Some (mn, mx) =>
      Some {| D3.domain := (inject_Z mn, inject_Z mx);
              D3.range := (margin_left l, innerWidth l + margin_left l)%Q |}
  | None => None
  end.

(** [scale.nice()] as the engine computes it (see [D3.scaleLinear]). *)
Variable nice : Q * Q → Q * Q.

(**
<<
    scaleLinear({
      range: [innerHeight + margin.top, margin.top],
      domain: [0, (max(chartData, getShieldedValue) || 0) + innerHeight / 3],
      nice: true,
    })
>> *)
Definition shieldedValueScale (chartData : list ShieldedAmountDatum)
  (l : Layout) : D3.Scale :=
  D3.scaleLinear nice
    (innerHeight l + margin_top l, margin_top l)%Q
    (0, or0 (D3.max chartData getShieldedValue) + innerHeight l / 3)%Q
    true.

(** The [x] accessor of the area, [(d) => dateScale(getDate(d)) ?? 0]:
    the scale answers [undefined] for an invalid date; [None] is a
    coordinate that is not finite. *)
Definition areaX (chartData : list ShieldedAmountDatum) (l : Layout)
  (d : ShieldedAmountDatum) : option Q :=
  match getDate d with
  | None => Some 0%Q
  | Some t =>
      match dateScale chartData l with
      | Some s => D3.apply s (inject_Z t)
      | None => None
      end
  end.

(** The [y] accessor, [(d) => shieldedValueScale(getShieldedValue(d)) ?? 0] *)
Definition areaY (chartData : list ShieldedAmountDatum) (l : Layout)
  (d : ShieldedAmountDatum) : option Q :=
  D3.apply (shieldedValueScale chartData l) (getShieldedValue d).

(** *** Component state *)

(** The three [useState] cells: [chartData], [isLoading], [error]
    ([None] is [null], [Some msg] an [Error] object). *)
Record State : Type := {
  chartData : list ShieldedAmountDatum;
  isLoading : bool;
  error : option string;
}.

(** [useState([])], [useState(false)], [useState(null)] *)
Definition initial : State :=
  {| chartData := []; isLoading := false; error := None |}.

Definition setChartData (data : list ShieldedAmountDatum) (s : State) : State :=
  {| chartData := data; isLoading := isLoading s; error := error s |}.

Definition setIsLoading (b : bool) (s : State) : State :=
  {| chartData := chartData s; isLoading := b; error := error s |}.

Definition setError (e : string) (s : State) : State :=
  {| chartData := chartData s; isLoading := isLoading s; error := Some e |}.

(** *** Render branches *)

Inductive View : Type :=
  | LoadingView   (** "Loading historic shielding data..." *)
  | ErrorView     (** "Error loading historic shielding data" *)
  | ChartView.    (** the svg chart *)

(**
<<
    if (chartData.length === 0 || isLoading) return <loading/>;
    if (error) return <error/>;
    return <chart/>;
>> *)
Definition render (s : State) : View :=
  if (length (chartData s) =? 0)%nat || isLoading s then LoadingView
  else match error s with
       | Some _ => ErrorView
       | None => ChartView
       end.

(** *** The data-loading effect *)

(** The component together with the network: [requests] counts the calls
    of [fetchShieldedSupplyData] so far, [inflight] those whose promise
    is still pending. *)
Record Component : Type := {
  state : State;
  requests : nat;
  inflight : nat;
}.

(**
<<
    useEffect(() => {
      if (isLoading) return;
      if (chartData.length > 0) return;
      setIsLoading(true);
      fetchShieldedSupplyData().then(..).catch(..).finally(..);
    }, [chartData, isLoading, error]);
>> *)
Definition effect (c : Component) : Component :=
  if isLoading (state c) then c
  else if (0 <? length (chartData (state c)))%nat then c
  else {| state := setIsLoading true (state c);
          requests := S (requests c);
          inflight := S (inflight c) |}.

(** A state update re-renders the component; every state cell is a
    dependency of the effect, so the effect runs again.  (The effect's
    own [setIsLoading(true)] re-runs it once more, to no further change:
    [effect_idempotent].) *)
Definition update (f : State → State) (c : Component) : Component :=
  effect {| state := f (state c);
            requests := requests c;
            inflight := inflight c |}.

(** First render and first run of the effect. *)
Definition mount : Component :=
  effect {| state := initial; requests := 0; inflight := 0 |}.

(** How a pending request settles. *)
Inductive Response : Type :=
  | Fulfilled (data : list ShieldedAmountDatum)
  | Rejected (e : string).

(** The promise chain of the effect, run when a pending request settles:
<<
      .then((data) => setChartData(data))
      .catch((error) => setError(error))
      .finally(() => setIsLoading(false));
>> *)
Definition settle (r : Response) (c : Component) : Component :=
  match inflight c with
  | O => c
  | S n =>
      let c' := {| state := state c; requests := requests c; inflight := n |} in
      match r with
      | Fulfilled data =>
          update (setIsLoading false) (update (setChartData data) c')
      | Rejected e =>
          update (setIsLoading false) (update (setError e) c')
      end
  end.

(** One step of the component: a pending request settles. *)
Inductive step : Component → Component → Prop :=
  | step_settle (r : Response) (c : Component) :
      (0 < inflight c)%nat → step c (settle r c).

(** The states the mounted component can be in. *)
Definition reachable (c : Component) : Prop := rtc step mount c.

(** The component after the successive requests settled as [rs]. *)
Definition run (rs : list Response) : Component :=
  fold_left (fun c r => settle r c) rs mount.

End Chart.

(** ** The export hook: [useExportDashboardAsPNG] in [walletsConfig.ts] *)

Module PngExport.

Local Open Scope string_scope.

(** [export const PoolsType = { default, sprout, sap, ord }] *)
Module PoolsType.
Definition default : string := "default".
Definition sprout : string := "sprout".
Definition sap : string := "sapling".
Definition ord : string := "orchard".
End PoolsType.

(** A non-null value of [poolData]: [{ timestamp: string; supply: number }] *)
Record PoolEntry : Type := {
  timestamp : string;
  supply : Q;
}.

(** An element under the chart's [div]; [elem_id] stands for the identity
    of the node, [textContent] for the text node it holds. *)
Record Element : Type := {
  elem_id : nat;
  tagName : string;
  style : list (string * string);
  textContent : string;
}.

(** What the hook can touch: the children of [divChartRef.current]
    ([None] when the ref is [null]), the supply of fresh node identities,
    the downloads triggered ([download] name and [href]) and the lines
    written by [console.error]. *)
Record Browser : Type := {
  current : option (list Element);
  next_id : nat;
  downloads : list (string * string);
  console : list string;
}.

(** The outcome of [await html2canvas(..)]: a canvas, given by the data
    URL that [canvas.toDataURL("image/png")] returns, or an exception. *)
Inductive Raster : Type :=
  | Canvas (png : string)
  | RasterError (err : string).

(** [parent.removeChild(child)]: the child list without the node, or
    [None] (a [NotFoundError] is thrown) when it is not a child. *)
Definition removeChild (children : list Element) (child : Element)
  : option (list Element) :=
  if existsb (fun e => (elem_id e =? elem_id child)%nat) children
  then Some (filter (fun e => elem_id e ≠ elem_id child) children)
  else None.

Section Hook.

(** [Number.prototype.toLocaleString()], which depends on the locale
    of the browser. *)
Variable toLocaleString : Q → string.

(** [html2canvas], applied to the children of the element it is given
    ([None] for [null]). *)
Variable html2canvas : option (list Element) → Raster.

(** [poolData[key]?.supply.toLocaleString()]: the chain stops with
    [undefined] ([None]) when the entry is [null] or missing. *)
Definition supplyText (poolData : gmap string (option PoolEntry))
  (key : string) : option string :=
  match poolData !! key with
  | Some (Some entry) => Some (toLocaleString (supply entry))
  | Some None => None
  | None => None
  end.

(** A template literal substitution [${v}] for a string or
    [undefined]. *)
Definition substitute (v : option string) : string :=
  match v with
  | Some s => s
  | None => "undefined"
  end.

(** The text given to the text node [poolQty]:
<<
  if (poolType == PoolsType.sprout) {
    poolQty.textContent = `${poolData["sproutSupply"]?.supply.toLocaleString()} ZEC in Sprout Pool`;
  } else if (poolType == PoolsType.ord) { .. "orchardSupply" .. Orchard Pool
  } else if (poolType == PoolsType.sap) { .. "saplingSupply" .. Sapling Pool
  } else {
    poolQty.textContent = (the empty string);
  }
>> *)
Definition poolQtyText (poolType : string)
  (poolData : gmap string (option PoolEntry)) : string :=
  if String.eqb poolType PoolsType.sprout then
    substitute (supplyText poolData "sproutSupply") ++ " ZEC in Sprout Pool"
  else if String.eqb poolType PoolsType.ord then
    substitute (supplyText poolData "orchardSupply") ++ " ZEC in Orchard Pool"
  else if String.eqb poolType PoolsType.sap then
    substitute (supplyText poolData "saplingSupply") ++ " ZEC in Sapling Pool"
  else EmptyString.

(** The overlay [span] holding the text node, created with the next
    free identity. *)
Definition overlay (poolType : string)
  (poolData : gmap string (option PoolEntry)) (b : Browser) : Element :=
  {| elem_id := next_id b;
     tagName := "span";
     style := [("color", "#eee"); ("position", "absolute");
               ("top", "20px"); ("paddingLeft", "24px");
               ("zIndex", "1000")];
     textContent := poolQtyText poolType poolData |}.

(** [handleSaveToPng(poolType, poolData)]:
<<
  if (divChartRef.current) divChartRef.current.appendChild(span);
  try {
    const canvas = await html2canvas(divChartRef.current!);
    const link = document.createElement("a");
    link.href = canvas.toDataURL("image/png");
    link.download = `zcash-${poolType}-pool-chart.png`;
    link.click();
    divChartRef.current?.removeChild(span);
  } catch (err) {
    console.error("Error saving chart: ", err);
  }
>> *)
Definition handleSaveToPng (poolType : string)
  (poolData : gmap string (option PoolEntry)) (b : Browser) : Browser :=
  let span := overlay poolType poolData b in
  let appended : option (list Element) :=
    (fun children => (children ++ [span])%list) <$> current b in
  match html2canvas appended with
  | Canvas png =>
      let clicked :=
        (downloads b
           ++ [(("zcash-" ++ poolType ++ "-pool-chart.png")%string, png)])%list in
      match appended with
      | None =>
          {| current := None; next_id := S (S (next_id b));
             downloads := clicked; console := console b |}
      | Some children =>
          match removeChild children span with
          | Some children' =>
              {| current := Some children'; next_id := S (S (next_id b));
                 downloads := clicked; console := console b |}
          | None =>
              {| current := appended; next_id := S (S (next_id b));
                 downloads := clicked;
                 console :=
                   (console b ++ ["Error saving chart: NotFoundError"])%list |}
          end
      end
  | RasterError err =>
      {| current := appended; next_id := S (next_id b);
         downloads := downloads b;
         console :=
           (console b ++ [("Error saving chart: " ++ err)%string])%list |}
  end.

End Hook.

(** *** A locale for the examples: [en-US] *)

Definition digit (d : Z) : ascii := ascii_of_nat (48 + Z.to_nat d).

(** The decimal digits of [n >= 0] in front of [acc], with a comma after
    every third digit counted from the right; [pos] digits are already
    in [acc]. *)
Fixpoint grouped (fuel : nat) (n : Z) (pos : nat) (acc : string) : string :=
  match fuel with
  | O => acc
  | S fuel' =>
      let sep := if (0 <? pos)%nat && (pos mod 3 =? 0)%nat
                 then String "," acc else acc in
      let acc' := String (digit (n mod 10)) sep in
      if (n <? 10)%Z then acc' else grouped fuel' (n / 10) (S pos) acc'
  end.

(** The fraction digits of [f] thousandths, [0 <= f < 1000], trailing
    zeros dropped. *)
Definition fraction (f : Z) : string :=
  if (f =? 0)%Z then EmptyString
  else if (f mod 100 =? 0)%Z then String "." (String (digit (f / 100)) EmptyString)
  else if (f mod 10 =? 0)%Z then
    String "." (String (digit (f / 100)) (String (digit (f / 10 mod 10)) EmptyString))
  else
    String "." (String (digit (f / 100))
                 (String (digit (f / 10 mod 10)) (String (digit (f mod 10)) EmptyString))).

(** [toLocaleString()] in the [en-US] locale: grouping by thousands, at
    most three fraction digits, halves rounded away from zero. *)
Definition toLocaleString_enUS (q : Q) : string :=
  let thousandths := Qfloor (Qabs q * 1000 + (1 # 2)) in
  let whole := thousandths / 1000 in
  (if D3.Qltb q 0 then "-" else EmptyString)
  ++ grouped (S (Z.to_nat (Z.log2 whole))) whole 0 EmptyString
  ++ fraction (thousandths mod 1000).

End PngExport.

(** ** A date parser for the examples *)

(** The data file writes dates as ["MM/DD/YYYY"].  [Date_parse_mdY] is
    [new Date(s)] on such strings for a browser whose local time is UTC:
    midnight of that day, in milliseconds since the epoch; any other string
    is an invalid date. *)
Module MdY.

Definition digit_value (c : ascii) : option Z :=
  let n := Z.of_nat (nat_of_ascii c) in
  if (48 <=? n) && (n <=? 57) then Some (n - 48) else None.

(** The fields between the slashes, as numbers; [None] on a character
    that is neither a digit nor a slash, or on an empty field. *)
Fixpoint fields (s : string) (cur : option Z) : option (list Z) :=
  match s with
  | EmptyString =>
      match cur with
      | Some n => Some [n]
      | None => None
      end
  | String c rest =>
      if Ascii.eqb c "/"%char then
        match cur with
        | Some n => (fun l => n :: l) <$> fields rest None
        | None => None
        end
      else
        match digit_value c with
        | Some d => fields rest (Some (10 * default 0 cur + d))
        | None => None
        end
  end.

(** Days from 1970-01-01 to the civil date [y]-[m]-[d] (proleptic
    Gregorian calendar). *)
Definition days_from_civil (y m d : Z) : Z :=
  let y' := if m <=? 2 then y - 1 else y in
  let era := y' / 400 in
  let yoe := y' - era * 400 in
  let mp := if 2 <? m then m - 3 else m + 9 in
  let doy := (153 * mp + 2) / 5 + d - 1 in
  let doe := yoe * 365 + yoe / 4 - yoe / 100 + doy in
  era * 146097 + doe - 719468.

Definition Date_parse_mdY (s : string) : Date :=
  match fields s None with
  | Some [m; d; y] =>
      if (1 <=? m) && (m <=? 12) && (1 <=? d) && (d <=? 31)
      then Some (days_from_civil y m d * 86400000)
      else None
  | _ => None
  end.

End MdY.

(** ** Example data *)

Module Examples.

Local Open Scope string_scope.

(** [[{close:"01/01/2020",supply:10},{close:"01/01/2021",supply:20}]] *)
Definition first_point : ShieldedAmountDatum :=
  {| close := "01/01/2020"; supply := 10 |}.
Definition second_point : ShieldedAmountDatum :=
  {| close := "01/01/2021"; supply := 20 |}.
Definition two_points : list ShieldedAmountDatum :=
  [first_point; second_point].

(** The date half way between the two observations: 2020 is a leap
    year, so 183 days after the first. *)
Definition midpoint : Z := 1577836800000 + 183 * 86400000.

(** A measured area of 1000 by 500 pixels, without margins and with a
    top margin of 100 pixels. *)
Definition plain_layout : Layout :=
  {| width := 1000; height := 500; margin_top := 0; margin_right := 0;
     margin_bottom := 0; margin_left := 0 |}.
Definition layout_with_top_margin : Layout :=
  {| width := 1000; height := 500; margin_top := 100; margin_right := 0;
     margin_bottom := 0; margin_left := 0 |}.

(** The sample datum of the source's comment. *)
Definition epoch_point : ShieldedAmountDatum :=
  {| close := "01/01/1970"; supply := 0 |}.

(** A stand-in for [nice] that leaves the domain as it is. *)
Definition unrounded (domain : Q * Q) : Q * Q := domain.

(** The chart's [div] with one child, and a rasterizer that succeeds
    and one that throws. *)
Definition svg : PngExport.Element :=
  {| PngExport.elem_id := 0; PngExport.tagName := "svg";
     PngExport.style := []; PngExport.textContent := EmptyString |}.
Definition page : PngExport.Browser :=
  {| PngExport.current := Some [svg]; PngExport.next_id := 1;
     PngExport.downloads := []; PngExport.console := [] |}.
Definition rasterizer_ok (_ : option (list PngExport.Element))
  : PngExport.Raster :=
  PngExport.Canvas "data:image/png;base64,".
Definition rasterizer_throws (_ : option (list PngExport.Element))
  : PngExport.Raster :=
  PngExport.RasterError "SecurityError".

(** Balances with a sprout entry, and balances whose sprout entry is
    [null]. *)
Definition balances : gmap string (option PngExport.PoolEntry) :=
  {[ "sproutSupply" :=
       Some {| PngExport.timestamp := "2024-01-01";
               PngExport.supply := 1234567 |} ]}.
Definition balances_null : gmap string (option PngExport.PoolEntry) :=
  {[ "sproutSupply" := None ]}.

End Examples.

(** ** Further parts of the two files *)

(** *** [fetchShieldedSupplyData] *)

Module Http.

(** The decimal digits of [n >= 0] in front of [acc]. *)
Fixpoint digits (fuel : nat) (n : Z) (acc : string) : string :=
  match fuel with
  | O => acc
  | S fuel' =>
      let acc' := String (PngExport.digit (n mod 10)) acc in
      if n <? 10 then acc' else digits fuel' (n / 10) acc'
  end.

(** [`${n}`] for an integer [n >= 0] *)
Definition decimal (n : Z) : string :=
  digits (S (Z.to_nat (Z.log2 n))) n EmptyString.

(** A [Response] of the fetch API: its status, and what
    [response.json()] settles to, the parsed array or the error it
    rejects with. *)
Record HttpResponse : Type := {
  status : Z;
  json : list ShieldedAmountDatum + string;
}.

(** [response.ok]: the status is in the range 200 to 299. *)
Definition ok (r : HttpResponse) : bool :=
  (200 <=? status r) && (status r <=? 299).

(** What [fetch(SHIELDED_DATA_URL)] settles to: a network error or a
    response. *)
Inductive FetchResult : Type :=
  | NetworkError (e : string)
  | Responded (r : HttpResponse).

(**
<<
    const response = await fetch(SHIELDED_DATA_URL);
    if (!response.ok)  throw new Error(`HTTP error! status: ${response.status}`);
    return await response.json();
>>
    as the way the returned promise settles. *)
Definition fetchShieldedSupplyData (f : FetchResult) : Response :=
  match f with
  | NetworkError e => Rejected e
  | Responded r =>
      if negb (ok r)
      then Rejected ("HTTP error! status: " ++ decimal (status r))%string
      else match json r with
           | inl data => Fulfilled data
           | inr e => Rejected e
           end
  end.

End Http.

(** *** Sequences of answers and of exports *)

(** The component [c] after its successive requests settled as [rs]. *)
Definition after (rs : list Response) (c : Component) : Component :=
  fold_left (fun c r => settle r c) rs c.

(** The nodes under the chart's [div] are older than the next node to be
    created. *)
Definition well_formed (b : PngExport.Browser) : Prop :=
  match PngExport.current b with
  | Some children =>
      Forall (fun e => (PngExport.elem_id e < PngExport.next_id b)%nat) children
  | None => True
  end.

(** The pool types with a label, their key in [poolData] and the name in
    the label. *)
Definition labelled_pools : list (string * string * string) :=
  [("sprout", "sproutSupply", "Sprout");
   ("orchard", "orchardSupply", "Orchard");
   ("sapling", "saplingSupply", "Sapling")]%string.

(** ** Specification vocabulary *)

Section Series.

Variable Date_parse : string → Date.

(** The time values of a series all of whose dates are valid. *)
Fixpoint times (data : list ShieldedAmountDatum) : option (list Z) :=
  match data with
  | [] => Some []
  | d :: rest =>
      match getDate Date_parse d, times rest with
      | Some t, Some ts => Some (t :: ts)
      | _, _ => None
      end
  end.

Fixpoint nondecreasing (ts : list Z) : bool :=
  match ts with
  | t1 :: rest =>
      match rest with
      | t2 :: _ => (t1 <=? t2) && nondecreasing rest
      | [] => true
      end
  | [] => true
  end.

(** The assumption of the component on its data: every date parses and
    the series is in chronological order (equal dates allowed). *)
Definition sorted_series (data : list ShieldedAmountDatum) : bool :=
  match times data with
  | Some ts => nondecreasing ts
  | None => false
  end.

(** [d] is an observation of [data] nearest in time to [x]. *)
Definition nearest (data : list ShieldedAmountDatum) (x : Z)
  (d : ShieldedAmountDatum) : Prop :=
  d ∈ data ∧
  ∃ t, getDate Date_parse d = Some t ∧
    ∀ d' t', d' ∈ data → getDate Date_parse d' = Some t' →
      Z.abs (t - x) ≤ Z.abs (t' - x).

End Series.

(** The two kinds of state of the mounted component: a request is pending,
    the loading flag is set and no data is held; or nothing is pending, the
    flag is reset and data is held. *)
Definition fetching (c : Component) : Prop :=
  inflight c = 1%nat ∧ isLoading (state c) = true ∧ chartData (state c) = [].

Definition loaded (c : Component) : Prop :=
  inflight c = 0%nat ∧ isLoading (state c) = false ∧ chartData (state c) ≠ [].

(** An answer that stores no observation: an empty series or a failure. *)
Definition without_data (r : Response) : Prop :=
  r = Fulfilled [] ∨ ∃ e, r = Rejected e.

(** * Theorems *)

(** ** The bisector *)

Lemma ushr1_small (n : Z) : 0 ≤ n < 2 ^ 32 → Js.ushr1 n = n / 2.
Proof.
  intros Hn. unfold Js.ushr1.
  rewrite Z.mod_small by done. by rewrite Z.shiftr_div_pow2.
Qed.

Lemma index_nonneg {A} (a : list A) (i : Z) :
  0 ≤ i → Js.index a i = a !! Z.to_nat i.
Proof.
  intros Hi. unfold Js.index.
  destruct (Z.ltb_spec i 0); [lia|done].
Qed.

(** The comparator of the bisector on two valid dates. *)
Lemma compare2_lt0 Date_parse (d : ShieldedAmountDatum) (t x : Z) :
  getDate Date_parse d = Some t →
  Js.lt (D3.compare2 (fun d => Date_parse (close d)) d (Some x)) (Some 0)
  = (t <? x).
Proof.
  unfold getDate, D3.compare2, D3.ascending. intros ->.
  unfold Js.gt, Js.ge, Js.lt.
  destruct (Z.ltb_spec t x); [done|].
  destruct (Z.ltb_spec x t); [done|].
  destruct (Z.leb_spec x t); done.
Qed.

(** The loop of the bisector ends within [hi - lo] rounds and stays in
    [[lo, hi]], whatever the array holds and whatever date is looked up. *)
Lemma left_loop_returns {A} (f : A → Date) (a : list A) (x : Date)
  (fuel : nat) :
  ∀ lo hi : Z,
    0 ≤ lo → lo < hi → hi ≤ Z.of_nat (length a) →
    Z.of_nat (length a) < 2 ^ 31 →
    hi - lo ≤ Z.of_nat fuel →
    ∃ idx, D3.left_loop f fuel a x lo hi = Val idx ∧ lo ≤ idx ≤ hi.
Proof.
  induction fuel as [|fuel IH]; intros lo hi Hlo Hlt Hhi Hsmall Hfuel.
  { lia. }
  simpl. rewrite ushr1_small by lia.
  set (mid := (lo + hi) / 2).
  assert (Hmid : lo ≤ mid < hi).
  { subst mid. split.
    - apply Z.div_le_lower_bound; lia.
    - apply Z.div_lt_upper_bound; lia. }
  rewrite index_nonneg by lia.
  destruct (lookup_lt_is_Some_2 a (Z.to_nat mid) ltac:(lia)) as [d ->].
  destruct (Js.lt (D3.compare2 f d x) (Some 0)).
  - destruct (Z.ltb_spec (mid + 1) hi) as [Hgo|Hstop].
    + destruct (IH (mid + 1) hi) as (idx & -> & Hidx); [lia..|].
      exists idx. split; [done|lia].
    + exists (mid + 1). split; [done|lia].
  - destruct (Z.ltb_spec lo mid) as [Hgo|Hstop].
    + destruct (IH lo mid) as (idx & -> & Hidx); [lia..|].
      exists idx. split; [done|lia].
    + exists lo. split; [done|lia].
Qed.

Section BisectProofs.

Variable Date_parse : string → Date.
Variable data : list ShieldedAmountDatum.
Variable ts : list Z.
Hypothesis Htimes : times Date_parse data = Some ts.
Hypothesis Hsorted : nondecreasing ts = true.
Hypothesis Hsmall : Z.of_nat (length data) < 2 ^ 31.

Lemma times_length : length ts = length data.
Proof using Htimes.
  clear Hsorted Hsmall. revert ts Htimes.
  induction data as [|d rest IH]; intros ts0 H; simpl in H.
  - by inversion H.
  - destruct (getDate Date_parse d); [|done].
    destruct (times Date_parse rest) as [ts'|]; [|done].
    inversion H; subst. simpl. f_equal. by apply IH.
Qed.

Lemma times_lookup (i : nat) (d : ShieldedAmountDatum) :
  data !! i = Some d →
  ∃ t, ts !! i = Some t ∧ getDate Date_parse d = Some t.
Proof using Htimes.
  clear Hsorted Hsmall. revert ts Htimes i.
  induction data as [|d0 rest IH]; intros ts0 H i Hi; [done|].
  simpl in H.
  destruct (getDate Date_parse d0) as [t0|] eqn:E0; [|done].
  destruct (times Date_parse rest) as [ts'|]; [|done].
  inversion H; subst.
  destruct i as [|i]; simpl in *.
  - inversion Hi; subst. eauto.
  - by apply IH.
Qed.

Lemma nondecreasing_lookup (i j : nat) (a b : Z) :
  (i ≤ j)%nat → ts !! i = Some a → ts !! j = Some b → a ≤ b.
Proof using Hsorted.
  clear Htimes Hsmall. revert Hsorted i j a b.
  induction ts as [|t1 rest IH]; intros Hs i j a b Hij Hi Hj; [done|].
  assert (Hrest : nondecreasing rest = true).
  { simpl in Hs. destruct rest; [done|]. by apply andb_prop in Hs as [_ ?]. }
  assert (Hhead : ∀ k c, rest !! k = Some c → t1 ≤ c).
  { intros k c Hk.
    destruct rest as [|t2 rest']; [done|].
    simpl in Hs. apply andb_prop in Hs as [Hle _]. apply Z.leb_le in Hle.
    destruct k as [|k]; simpl in Hk.
    - inversion Hk; subst; lia.
    - specialize (IH Hrest 0%nat (S k) t2 c). simpl in IH.
      specialize (IH ltac:(lia) eq_refl Hk). lia. }
  destruct i as [|i], j as [|j]; simpl in *.
  - inversion Hi; inversion Hj; subst; lia.
  - inversion Hi; subst. by eapply Hhead.
  - lia.
  - eapply (IH Hrest i j); [lia|done..].
Qed.

(** The loop of the bisector, on a chronological series: it ends, and
    [idx] splits the observations from index 1 on into those before [x]
    and those at or after [x]. *)
Lemma left_loop_spec (x : Z) (fuel : nat) :
  ∀ lo hi : Z,
    1 ≤ lo → lo < hi → hi ≤ Z.of_nat (length data) →
    hi - lo ≤ Z.of_nat fuel →
    (∀ (j : nat) t, 1 ≤ Z.of_nat j < lo → ts !! j = Some t → t < x) →
    (∀ (j : nat) t, hi ≤ Z.of_nat j → ts !! j = Some t → x ≤ t) →
    ∃ idx,
      D3.left_loop (fun d => Date_parse (close d)) fuel data (Some x) lo hi
      = Val idx
      ∧ lo ≤ idx ≤ hi
      ∧ (∀ (j : nat) t, 1 ≤ Z.of_nat j < idx → ts !! j = Some t → t < x)
      ∧ (∀ (j : nat) t, idx ≤ Z.of_nat j → ts !! j = Some t → x ≤ t).
Proof using Htimes Hsorted Hsmall.
  induction fuel as [|fuel IH]; intros lo hi Hlo Hlt Hhi Hfuel Hbelow Habove.
  { lia. }
  simpl.
  assert (Hmid : Js.ushr1 (lo + hi) = (lo + hi) / 2).
  { apply ushr1_small. lia. }
  rewrite Hmid. set (mid := (lo + hi) / 2).
  assert (Hmid_bounds : lo ≤ mid < hi).
  { subst mid. split.
    - apply Z.div_le_lower_bound; lia.
    - apply Z.div_lt_upper_bound; lia. }
  rewrite index_nonneg by lia.
  destruct (lookup_lt_is_Some_2 data (Z.to_nat mid) ltac:(lia)) as [d Hd].
  rewrite Hd.
  destruct (times_lookup _ _ Hd) as (t & Ht & Hdate).
  rewrite (compare2_lt0 Date_parse d t x Hdate).
  destruct (Z.ltb_spec t x) as [Htx|Htx].
  - (* a[mid] is before x: lo = mid + 1 *)
    assert (Hbelow' :
      ∀ (j : nat) t', 1 ≤ Z.of_nat j < mid + 1 → ts !! j = Some t' → t' < x).
    { intros j t' Hj Hjt.
      pose proof (nondecreasing_lookup j (Z.to_nat mid) t' t ltac:(lia) Hjt Ht).
      lia. }
    destruct (Z.ltb_spec (mid + 1) hi) as [Hgo|Hstop].
    + destruct (IH (mid + 1) hi) as (idx & Hrun & Hidx & Hb & Ha);
        [lia..|done|done|].
      exists idx. repeat split; [done|lia|lia|done|done].
    + exists (mid + 1). repeat split; [lia|lia|done|].
      intros j t' Hj. apply Habove. lia.
  - (* a[mid] is at or after x: hi = mid *)
    assert (Habove' :
      ∀ (j : nat) t', mid ≤ Z.of_nat j → ts !! j = Some t' → x ≤ t').
    { intros j t' Hj Hjt.
      pose proof (nondecreasing_lookup (Z.to_nat mid) j t t' ltac:(lia) Ht Hjt).
      lia. }
    destruct (Z.ltb_spec lo mid) as [Hgo|Hstop].
    + destruct (IH lo mid) as (idx & Hrun & Hidx & Hb & Ha);
        [lia..|done|done|].
      exists idx. repeat split; [done|lia|lia|done|done].
    + exists lo. repeat split; [lia|lia|done|].
      intros j t' Hj. apply Habove'. lia.
Qed.

(** [bisectDate(chartData, x0, 1)] on a chronological series. *)
Lemma bisectDate_spec (x : Z) :
  ∃ idx,
    bisectDate Date_parse data (Some x) 1 = Val idx
    ∧ 1 ≤ idx
    ∧ (data ≠ [] → idx ≤ Z.of_nat (length data))
    ∧ (∀ (j : nat) t, 1 ≤ Z.of_nat j < idx → ts !! j = Some t → t < x)
    ∧ (∀ (j : nat) t, idx ≤ Z.of_nat j → ts !! j = Some t → x ≤ t).
Proof using Htimes Hsorted Hsmall.
  unfold bisectDate, D3.left.
  destruct (Z.ltb_spec 1 (Z.of_nat (length data))) as [Hlt|Hge].
  - assert (Hx : Js.strict_ne (D3.ascending (Some x) (Some x)) (Some 0) = false).
    { unfold D3.ascending, Js.gt, Js.ge, Js.lt.
      rewrite Z.ltb_irrefl. by rewrite Z.leb_refl. }
    rewrite Hx.
    destruct (left_loop_spec x (Z.to_nat (Z.of_nat (length data) - 1))
                1 (Z.of_nat (length data)))
      as (idx & Hrun & Hidx & Hb & Ha); [lia..| | |].
    + intros j t Hj. lia.
    + intros j t Hj Hjt. apply lookup_lt_Some in Hjt.
      rewrite times_length in Hjt. lia.
    + exists idx. repeat split; [done|lia|intros _; lia|done|done].
  - exists 1. repeat split; [lia| |intros j t Hj; lia|].
    + intros Hne. destruct data; [done|]. simpl. lia.
    + intros j t Hj Hjt. apply lookup_lt_Some in Hjt.
      rewrite times_length in Hjt. lia.
Qed.

End BisectProofs.

(** ** The tooltip hit-test *)

Section TooltipProofs.

Variable Date_parse : string → Date.

Lemma sorted_series_times (data : list ShieldedAmountDatum) :
  sorted_series Date_parse data = true →
  ∃ ts, times Date_parse data = Some ts ∧ nondecreasing ts = true.
Proof.
  unfold sorted_series.
  destruct (times Date_parse data) as [ts|]; [eauto|done].
Qed.

(** What [handleTooltip] computes on a chronological, non-empty series:
    with [idx] the index found by the bisector, the observation at
    [idx - 1], unless the one at [idx] exists and is strictly nearer. *)
Lemma handleTooltip_core (data : list ShieldedAmountDatum) (ts : list Z)
  (x : Z) :
  times Date_parse data = Some ts →
  nondecreasing ts = true →
  Z.of_nat (length data) < 2 ^ 31 →
  data ≠ [] →
  ∃ (idx : nat) d0 t0,
    (1 ≤ idx ≤ length data)%nat
    ∧ (∀ (j : nat) t, (1 ≤ j < idx)%nat → ts !! j = Some t → t < x)
    ∧ (∀ (j : nat) t, (idx ≤ j)%nat → ts !! j = Some t → x ≤ t)
    ∧ data !! (idx - 1)%nat = Some d0
    ∧ ts !! (idx - 1)%nat = Some t0
    ∧ handleTooltip Date_parse data (Some x)
      = Val match data !! idx, ts !! idx with
            | Some d1, Some t1 => if t1 - x <? x - t0 then d1 else d0
            | _, _ => d0
            end.
Proof.
  intros Htimes Hsorted Hsmall Hne.
  destruct (bisectDate_spec Date_parse data ts Htimes Hsorted Hsmall x)
    as (idx & Hrun & Hge & Hle & Hbelow & Habove).
  specialize (Hle Hne).
  destruct (lookup_lt_is_Some_2 data (Z.to_nat (idx - 1)) ltac:(lia))
    as [d0 Hd0].
  destruct (times_lookup Date_parse data ts Htimes _ _ Hd0)
    as (t0 & Ht0 & Hdate0).
  exists (Z.to_nat idx), d0, t0.
  replace (Z.to_nat idx - 1)%nat with (Z.to_nat (idx - 1)) by lia.
  repeat split; [lia|lia| | |done|done|].
  { intros j t Hj. apply Hbelow. lia. }
  { intros j t Hj. apply Habove. lia. }
  unfold handleTooltip. rewrite Hrun.
  rewrite !index_nonneg by lia. rewrite Hd0.
  destruct (data !! Z.to_nat idx) as [d1|] eqn:Hd1; simpl.
  - destruct (times_lookup Date_parse data ts Htimes _ _ Hd1)
      as (t1 & Ht1 & Hdate1).
    rewrite Ht1, Hdate0, Hdate1. simpl. unfold Js.gt, Js.lt.
    by destruct (t1 - x <? x - t0).
  - done.
Qed.

(** On a non-empty array the hit-test never throws: for every pointer
    date, NaN included, and also on a series that is not sorted, it hands
    an observation of the series to [showTooltip]. *)
Lemma handleTooltip_returns (data : list ShieldedAmountDatum) (x0 : Date) :
  data ≠ [] →
  Z.of_nat (length data) < 2 ^ 31 →
  ∃ d, handleTooltip Date_parse data x0 = Val d ∧ d ∈ data.
Proof.
  intros Hne Hsmall.
  assert (Hlen : 1 ≤ Z.of_nat (length data)).
  { destruct data; [done|]. simpl. lia. }
  assert (Hidx : ∃ idx, bisectDate Date_parse data x0 1 = Val idx
                        ∧ 1 ≤ idx ≤ Z.of_nat (length data)).
  { unfold bisectDate, D3.left.
    destruct (Z.ltb_spec 1 (Z.of_nat (length data))) as [Hlt|Hge].
    - destruct (Js.strict_ne (D3.ascending x0 x0) (Some 0)).
      + eexists. split; [done|lia].
      + destruct (left_loop_returns (fun d => Date_parse (close d)) data x0
                    (Z.to_nat (Z.of_nat (length data) - 1))
                    1 (Z.of_nat (length data)))
          as (idx & Hrun & Hb); [lia..|].
        exists idx. split; [done|lia].
    - exists 1. split; [done|lia]. }
  destruct Hidx as (idx & Hrun & Hb).
  unfold handleTooltip. rewrite Hrun. rewrite !index_nonneg by lia.
  destruct (lookup_lt_is_Some_2 data (Z.to_nat (idx - 1)) ltac:(lia))
    as [d0 Hd0].
  rewrite Hd0.
  destruct (data !! Z.to_nat idx) as [d1|] eqn:Hd1; simpl.
  - destruct (Js.gt _ _).
    + exists d1. split; [done|by eapply list_elem_of_lookup_2].
    + exists d0. split; [done|by eapply list_elem_of_lookup_2].
  - exists d0. split; [done|by eapply list_elem_of_lookup_2].
Qed.

(** Every observation sits at some index, with its time value. *)
Lemma elem_of_times (data : list ShieldedAmountDatum) (ts : list Z)
  (d : ShieldedAmountDatum) (t : Z) :
  times Date_parse data = Some ts →
  d ∈ data → getDate Date_parse d = Some t →
  ∃ j : nat, data !! j = Some d ∧ ts !! j = Some t.
Proof.
  intros Htimes Hin Hdate.
  apply list_elem_of_lookup in Hin as [j Hj].
  destruct (times_lookup Date_parse data ts Htimes _ _ Hj) as (t' & Ht' & Hd').
  exists j. split; [done|]. congruence.
Qed.

(** C1 (as amended): on a chronological, non-empty series (of fewer than
    2^31 observations, so that [(lo + hi) >>> 1] is the mean) and for every
    pointer date [x], [handleTooltip] returns an observation whose date is
    nearest to [x]; when the two observations around [x] are at the same
    distance, it returns the earlier (left) one. *)
Theorem handleTooltip_nearest_ties_left (data : list ShieldedAmountDatum)
  (x : Z) :
  sorted_series Date_parse data = true →
  data ≠ [] →
  Z.of_nat (length data) < 2 ^ 31 →
  ∃ d,
    handleTooltip Date_parse data (Some x) = Val d
    ∧ nearest Date_parse data x d
    ∧ ∀ (i : nat) d0 d1 t0 t1,
        data !! i = Some d0 → data !! S i = Some d1 →
        getDate Date_parse d0 = Some t0 →
        getDate Date_parse d1 = Some t1 →
        t0 < x → x - t0 = t1 - x →
        d = d0.
Proof.
  intros Hss Hne Hsmall.
  destruct (sorted_series_times data Hss) as (ts & Htimes & Hsorted).
  destruct (handleTooltip_core data ts x Htimes Hsorted Hsmall Hne)
    as (idx & d0 & t0 & Hidx & Hbelow & Habove & Hd0 & Ht0 & Hrun).
  pose proof (times_lookup Date_parse data ts Htimes _ _ Hd0)
    as (t0' & Ht0' & Hdate0).
  assert (t0' = t0) by congruence. subst t0'.
  (* all observations up to [idx - 1] are no nearer than [d0],
     provided those from index 1 on are before [x] *)
  assert (Hleft : ∀ (j : nat) t, (j ≤ idx - 1)%nat → ts !! j = Some t →
                    t ≤ t0 ∧ (j = (idx - 1)%nat ∨ t0 < x)).
  { intros j t Hj Hjt. split.
    - by eapply (nondecreasing_lookup ts Hsorted j (idx - 1)%nat).
    - destruct (decide (j = (idx - 1)%nat)) as [|Hneq]; [by left|right].
      apply (Hbelow (idx - 1)%nat); [lia|done]. }
  destruct (data !! idx) as [d1|] eqn:Hd1.
  - destruct (times_lookup Date_parse data ts Htimes _ _ Hd1)
      as (t1 & Ht1 & Hdate1).
    rewrite Ht1 in Hrun.
    assert (Hx1 : x ≤ t1) by (by apply (Habove idx)).
    assert (H01 : t0 ≤ t1).
    { apply (nondecreasing_lookup ts Hsorted (idx - 1)%nat idx); [lia|done..]. }
    assert (Hright : ∀ (j : nat) t, (idx ≤ j)%nat → ts !! j = Some t → t1 ≤ t).
    { intros j t Hj Hjt.
      by apply (nondecreasing_lookup ts Hsorted idx j). }
    destruct (Z.ltb_spec (t1 - x) (x - t0)) as [Hnear|Hfar].
    + exists d1. split; [done|]. split.
      * split; [by eapply list_elem_of_lookup_2|].
        exists t1. split; [done|]. intros d' t' Hin Hdate'.
        destruct (elem_of_times data ts d' t' Htimes Hin Hdate')
          as (j & Hj & Hjt).
        destruct (decide (idx ≤ j)%nat) as [Hge|Hlt].
        -- pose proof (Hright j t' Hge Hjt). lia.
        -- destruct (Hleft j t' ltac:(lia) Hjt) as [? _]. lia.
      * intros i e0 e1 s0 s1 Hi HSi He0 He1 Hlt Htie.
        destruct (times_lookup Date_parse data ts Htimes _ _ Hi)
          as (u0 & Hu0 & Hv0).
        destruct (times_lookup Date_parse data ts Htimes _ _ HSi)
          as (u1 & Hu1 & Hv1).
        assert (u0 = s0) by congruence. assert (u1 = s1) by congruence.
        subst u0 u1.
        assert (S i = idx).
        { destruct (decide (idx ≤ i)%nat) as [Hc|Hc].
          - pose proof (Habove i s0 Hc Hu0). lia.
          - destruct (decide (S i < idx)%nat) as [Hc'|Hc']; [|lia].
            pose proof (Hbelow (S i) s1 ltac:(lia) Hu1). lia. }
        subst idx. replace (S i - 1)%nat with i in * by lia.
        assert (s0 = t0) by congruence. assert (s1 = t1) by congruence.
        lia.
    + exists d0. split; [done|]. split.
      * split; [by eapply list_elem_of_lookup_2|].
        exists t0. split; [done|]. intros d' t' Hin Hdate'.
        destruct (elem_of_times data ts d' t' Htimes Hin Hdate')
          as (j & Hj & Hjt).
        destruct (decide (idx ≤ j)%nat) as [Hge|Hlt].
        -- pose proof (Hright j t' Hge Hjt). lia.
        -- destruct (Hleft j t' ltac:(lia) Hjt) as [? [->|?]].
           ++ assert (t' = t0) by congruence. lia.
           ++ lia.
      * intros i e0 e1 s0 s1 Hi HSi He0 He1 Hlt Htie.
        destruct (times_lookup Date_parse data ts Htimes _ _ Hi)
          as (u0 & Hu0 & Hv0).
        destruct (times_lookup Date_parse data ts Htimes _ _ HSi)
          as (u1 & Hu1 & Hv1).
        assert (u0 = s0) by congruence. assert (u1 = s1) by congruence.
        subst u0 u1.
        assert (S i = idx).
        { destruct (decide (idx ≤ i)%nat) as [Hc|Hc].
          - pose proof (Habove i s0 Hc Hu0). lia.
          - destruct (decide (S i < idx)%nat) as [Hc'|Hc']; [|lia].
            pose proof (Hbelow (S i) s1 ltac:(lia) Hu1). lia. }
        subst idx. replace (S i - 1)%nat with i in * by lia.
        congruence.
  - assert (idx = length data).
    { apply lookup_ge_None in Hd1. lia. }
    exists d0. split; [done|]. split.
    + split; [by eapply list_elem_of_lookup_2|].
      exists t0. split; [done|]. intros d' t' Hin Hdate'.
      destruct (elem_of_times data ts d' t' Htimes Hin Hdate')
        as (j & Hj & Hjt).
      apply lookup_lt_Some in Hj as Hjlen.
      destruct (Hleft j t' ltac:(lia) Hjt) as [? [->|?]].
      * assert (t' = t0) by congruence. lia.
      * lia.
    + intros i e0 e1 s0 s1 Hi HSi He0 He1 Hlt Htie.
      apply lookup_lt_Some in HSi as HSilen.
      destruct (times_lookup Date_parse data ts Htimes _ _ HSi)
        as (u1 & Hu1 & Hv1).
      assert (u1 = s1) by congruence. subst u1.
      destruct (decide (S i < idx)%nat) as [Hc'|Hc']; [|lia].
      pose proof (Hbelow (S i) s1 ltac:(lia) Hu1). lia.
Qed.

(** C5: on a chronological series (of fewer than 2^31 observations), a
    pointer date before the first observation selects the first
    observation, and a pointer date after the last observation selects the
    last one. *)
Theorem handleTooltip_boundary (data : list ShieldedAmountDatum) (x : Z) :
  sorted_series Date_parse data = true →
  Z.of_nat (length data) < 2 ^ 31 →
  (∀ d t, head data = Some d → getDate Date_parse d = Some t → x < t →
          handleTooltip Date_parse data (Some x) = Val d)
  ∧ (∀ d t, last data = Some d → getDate Date_parse d = Some t → t < x →
            handleTooltip Date_parse data (Some x) = Val d).
Proof.
  intros Hss Hsmall.
  destruct (sorted_series_times data Hss) as (ts & Htimes & Hsorted).
  split; intros d t Hd Hdate Hx.
  - assert (Hne : data ≠ []) by (by destruct data).
    destruct (handleTooltip_core data ts x Htimes Hsorted Hsmall Hne)
      as (idx & d0 & t0 & Hidx & Hbelow & Habove & Hd0 & Ht0 & Hrun).
    rewrite head_lookup in Hd.
    destruct (times_lookup Date_parse data ts Htimes _ _ Hd)
      as (t' & Ht' & Hdate').
    assert (t' = t) by congruence. subst t'.
    assert (idx = 1%nat).
    { destruct (decide (idx = 1%nat)) as [|Hneq]; [done|exfalso].
      destruct (lookup_lt_is_Some_2 ts 1%nat) as [t1 Ht1].
      { rewrite (times_length Date_parse data ts Htimes). lia. }
      pose proof (Hbelow 1%nat t1 ltac:(lia) Ht1).
      pose proof (nondecreasing_lookup ts Hsorted 0%nat 1%nat t t1
                    ltac:(lia) Ht' Ht1).
      lia. }
    subst idx. simpl in Hd0, Ht0.
    assert (d0 = d) by congruence. assert (t0 = t) by congruence.
    subst d0 t0. rewrite Hrun.
    destruct (data !! 1%nat) as [d1|] eqn:Hd1; [|done].
    destruct (ts !! 1%nat) as [t1|] eqn:Ht1; [|done].
    pose proof (Habove 1%nat t1 ltac:(lia) Ht1).
    destruct (Z.ltb_spec (t1 - x) (x - t)); [lia|done].
  - assert (Hne : data ≠ []) by (by destruct data).
    destruct (handleTooltip_core data ts x Htimes Hsorted Hsmall Hne)
      as (idx & d0 & t0 & Hidx & Hbelow & Habove & Hd0 & Ht0 & Hrun).
    rewrite last_lookup in Hd.
    destruct (times_lookup Date_parse data ts Htimes _ _ Hd)
      as (t' & Ht' & Hdate').
    assert (t' = t) by congruence. subst t'.
    assert (idx = length data).
    { destruct (decide (idx = length data)) as [|Hneq]; [done|exfalso].
      destruct (lookup_lt_is_Some_2 ts idx) as [t1 Ht1].
      { rewrite (times_length Date_parse data ts Htimes). lia. }
      pose proof (Habove idx t1 ltac:(lia) Ht1).
      pose proof (nondecreasing_lookup ts Hsorted idx (pred (length data))
                    t1 t ltac:(lia) Ht1 Ht').
      lia. }
    subst idx.
    replace (length data - 1)%nat with (pred (length data)) in Hd0 by lia.
    assert (d0 = d) by congruence. subst d0. rewrite Hrun.
    by rewrite (lookup_ge_None_2 data (length data)) by lia.
Qed.

End TooltipProofs.

(** ** The data-loading effect and the render branches *)

Section LoaderProofs.

(** Running the effect again without a state change in between does
    nothing: after [setIsLoading(true)] the first guard returns. *)
Lemma effect_idempotent (c : Component) : effect (effect c) = effect c.
Proof.
  unfold effect.
  destruct (isLoading (state c)) eqn:Hl; simpl; [by rewrite Hl|].
  destruct (0 <? length (chartData (state c)))%nat eqn:Hd; simpl.
  - by rewrite Hl, Hd.
  - done.
Qed.

(** While a request is pending the effect leaves the component alone. *)
Lemma effect_loading (c : Component) :
  isLoading (state c) = true → effect c = c.
Proof. unfold effect. by intros ->. Qed.

(** The mounted component has issued its first request. *)
Lemma mount_state :
  mount = {| state := {| chartData := []; isLoading := true; error := None |};
             requests := 1; inflight := 1 |}.
Proof. reflexivity. Qed.

(** A rejected request, when no data is held: the error is stored, the
    loading flag is reset, and the effect, run again because
    [isLoading] and [error] changed, passes both guards and fetches
    again. *)
Lemma settle_rejected (e : string) (c : Component) (n : nat) :
  inflight c = S n →
  chartData (state c) = [] →
  isLoading (state c) = true →
  settle (Rejected e) c
  = {| state := {| chartData := []; isLoading := true; error := Some e |};
       requests := S (requests c);
       inflight := S n |}.
Proof.
  destruct c as [[data loading err] req pending]. simpl.
  intros -> -> ->. reflexivity.
Qed.

(** C3 (what the code does): every failed request is followed by a new
    one.  After the requests issued so far have all been rejected, with
    the errors [es], the effect has called [fetchShieldedSupplyData]
    once more than there were failures; in particular one failure
    ([es = [e]]) gives two requests. *)
Theorem failed_fetch_is_retried (es : list string) :
  requests (run (Rejected <$> es)) = S (length es)
  ∧ inflight (run (Rejected <$> es)) = 1%nat.
Proof.
  assert (H : ∀ es : list string,
             requests (run (Rejected <$> es)) = S (length es)
             ∧ inflight (run (Rejected <$> es)) = 1%nat
             ∧ chartData (state (run (Rejected <$> es))) = []
             ∧ isLoading (state (run (Rejected <$> es))) = true).
  { clear es. intros es. induction es as [|e es IH] using rev_ind.
    - by vm_compute.
    - destruct IH as (Hreq & Hin & Hdata & Hload).
      unfold run in *. rewrite fmap_app, fold_left_app. simpl.
      rewrite (settle_rejected e _ 0 Hin Hdata Hload). simpl.
      rewrite Hreq, length_app. simpl. repeat split; lia. }
  destruct (H es) as (? & ? & _). done.
Qed.

(** C2 (what the code does): once the first request has failed, and in
    every state that holds an error and no data, the component renders
    the loading message, not the error message. *)
Theorem failed_fetch_renders_loading (e : string) :
  render (state (run [Rejected e])) = LoadingView
  ∧ ∀ loading : bool,
      render {| chartData := []; isLoading := loading; error := Some e |}
      = LoadingView.
Proof. split; [reflexivity|]. by intros []. Qed.

(** Without data the first test of the render function answers. *)
Lemma render_empty (s : State) : chartData s = [] → render s = LoadingView.
Proof. unfold render. by intros ->. Qed.

(** An answer without data leaves the data empty. *)
Lemma settle_without_data (r : Response) (c : Component) :
  without_data r →
  chartData (state c) = [] →
  chartData (state (settle r c)) = [].
Proof.
  intros Hr Hempty. unfold settle. destruct (inflight c); [done|].
  destruct (state c) as [data loading err]. simpl in Hempty. subst data.
  destruct Hr as [->|[e ->]]; unfold update, effect; simpl;
    by destruct loading.
Qed.

(** C4 (what the code does): an empty series does not keep the loading
    message for ever.  The empty answer renders the loading message, but
    the effect runs again, passes both guards and fetches a second time;
    when that request brings observations they are stored and the chart
    is rendered. *)
Theorem empty_series_is_refetched (d : ShieldedAmountDatum)
  (data : list ShieldedAmountDatum) :
  render (state (run [Fulfilled []])) = LoadingView
  ∧ requests (run [Fulfilled []]) = 2%nat
  ∧ inflight (run [Fulfilled []]) = 1%nat
  ∧ chartData (state (run [Fulfilled []; Fulfilled (d :: data)])) = d :: data
  ∧ render (state (run [Fulfilled []; Fulfilled (d :: data)])) = ChartView.
Proof. repeat split; reflexivity. Qed.

(** As long as every answer is an empty series or a failure, the data
    stays empty, so the loading message stays. *)
Lemma empty_answers_keep_loading (rs : list Response) :
  Forall without_data rs →
  chartData (state (run rs)) = [] ∧ render (state (run rs)) = LoadingView.
Proof.
  intros Hrs.
  assert (chartData (state (run rs)) = []) as Hempty.
  { induction rs as [|r rs IH] using rev_ind; [done|].
    apply Forall_app in Hrs as [Hrs Hr]. rewrite Forall_singleton in Hr.
    unfold run in *. rewrite fold_left_app. simpl.
    apply settle_without_data; [done|by apply IH]. }
  split; [done|by apply render_empty].
Qed.

(** Every reachable state is of one of the two kinds. *)
Lemma reachable_fetching_or_loaded (c : Component) :
  reachable c → fetching c ∨ loaded c.
Proof.
  unfold reachable. revert c.
  apply (rtc_ind_r (fun c => fetching c ∨ loaded c) mount).
  { left. by vm_compute. }
  intros c1 c2 Hreach Hstep IH.
  destruct Hstep as [r c Hpending].
  destruct IH as [(Hin & Hload & Hdata)|(Hin & _)]; [|lia].
  destruct c as [[data loading err] req pending]. simpl in *. subst.
  destruct r as [[|d data]|e].
  - left. by vm_compute.
  - right. repeat split; done.
  - left. by vm_compute.
Qed.

(** Once data is held, nothing is pending: the component takes no further
    step, and fetches no more. *)
Lemma loaded_is_final (c c' : Component) : loaded c → ¬ step c c'.
Proof.
  intros (Hin & _) Hstep. destruct Hstep as [r c Hpending]. lia.
Qed.

(** In every reachable state with a pending request, a failure of that
    request starts a new one. *)
Lemma reachable_failure_refetches (c : Component) (e : string) :
  reachable c →
  (0 < inflight c)%nat →
  requests (settle (Rejected e) c) = S (requests c)
  ∧ fetching (settle (Rejected e) c).
Proof.
  intros Hreach Hpending.
  destruct (reachable_fetching_or_loaded c Hreach)
    as [(Hin & Hload & Hdata)|(Hin & _)]; [|lia].
  rewrite (settle_rejected e c 0 Hin Hdata Hload). by vm_compute.
Qed.

(** The error is never reset: when a retry succeeds after a failure, the
    error message is rendered although the data is held. *)
Lemma late_success_renders_error (e : string) (d : ShieldedAmountDatum)
  (data : list ShieldedAmountDatum) :
  render (state (run [Rejected e; Fulfilled (d :: data)])) = ErrorView.
Proof. reflexivity. Qed.

End LoaderProofs.

(** ** The scales *)

Section ScaleProofs.

Local Open Scope Q_scope.

(** The guard of [normalize] keeps every scaled value finite, also on a
    domain of width zero. *)
Lemma bimap_finite (dom rng : Q * Q) (x : Q) : is_Some (D3.bimap dom rng x).
Proof.
  destruct dom as [d0 d1], rng as [r0 r1]. unfold D3.bimap.
  destruct (D3.Qltb d1 d0); unfold D3.normalize, D3.fdiv;
    match goal with |- context [Qeq_bool ?q 0] => destruct (Qeq_bool q 0) end;
    simpl; eauto.
Qed.

Lemma Qltb_lt (a b : Q) : D3.Qltb a b = true ↔ a < b.
Proof.
  unfold D3.Qltb. rewrite negb_true_iff.
  split.
  - intros H. apply Qnot_le_lt. intros Hle.
    apply Qle_bool_iff in Hle. congruence.
  - intros H. destruct (Qle_bool b a) eqn:E; [|done].
    apply Qle_bool_iff in E. exfalso. by apply (Qlt_not_le a b).
Qed.

End ScaleProofs.

Section SinglePoint.

Variable Date_parse : string → Date.
Variable nice : Q * Q → Q * Q.

(** C9: a series of exactly one observation (with a valid date), once
    fetched, is rendered by the chart branch; the date domain collapses
    to one instant and the point is drawn at the middle of the horizontal
    range; its vertical coordinate is finite, also when the value domain
    has width zero, whatever [nice] makes of the domain; and the tooltip
    hit-test returns the observation for every pointer date, without
    reading outside the array. *)
Theorem single_point_renders (d : ShieldedAmountDatum) (t : Z) (l : Layout) :
  getDate Date_parse d = Some t →
  render (state (run [Fulfilled [d]])) = ChartView
  ∧ D3.extent [d] (getDate Date_parse) = Some (t, t)
  ∧ areaX Date_parse [d] l d
    = Some (D3.interpolateNumber (margin_left l)
              (innerWidth l + margin_left l) (1 # 2))
  ∧ is_Some (areaY nice [d] l d)
  ∧ ∀ x0 : Date, handleTooltip Date_parse [d] x0 = Val d.
Proof.
  intros Hdate. split; [reflexivity|].
  assert (Hext : D3.extent [d] (getDate Date_parse) = Some (t, t)).
  { unfold D3.extent. simpl. by rewrite Hdate. }
  split; [done|]. split.
  - unfold areaX, dateScale. rewrite Hdate, Hext.
    unfold D3.apply, D3.bimap. simpl.
    assert (Hlt : D3.Qltb (inject_Z t) (inject_Z t) = false).
    { destruct (D3.Qltb (inject_Z t) (inject_Z t)) eqn:E; [|done].
      apply Qltb_lt in E. by apply Qlt_irrefl in E. }
    rewrite Hlt. unfold D3.normalize.
    assert (Hw : Qeq_bool (inject_Z t - inject_Z t) 0 = true).
    { apply Qeq_bool_iff. ring. }
    by rewrite Hw.
  - split; [apply bimap_finite|].
    intros x0. unfold handleTooltip, bisectDate, D3.left. reflexivity.
Qed.

End SinglePoint.

(** ** The export hook *)

Section ExportProofs.

Import PngExport.
Local Open Scope string_scope.

Variable toLocaleString : Q → string.
Variable html2canvas : option (list Element) → Raster.

(** Removing a freshly created node from the list it was appended to
    gives the list back. *)
Lemma removeChild_appended (children : list Element) (span : Element) :
  Forall (fun e => (elem_id e < elem_id span)%nat) children →
  removeChild (children ++ [span])%list span = Some children.
Proof.
  intros Hfresh. unfold removeChild.
  rewrite existsb_app. simpl. rewrite Nat.eqb_refl. simpl.
  rewrite orb_true_r. f_equal.
  rewrite filter_app.
  rewrite (filter_cons_False _ span []) by (intros Hne; by apply Hne).
  rewrite filter_nil, app_nil_r.
  induction Hfresh as [|e rest He Hrest IH]; [done|].
  rewrite filter_cons_True by lia. by rewrite IH.
Qed.

(** C7: with the chart's [div] attached, [handleSaveToPng] appends the
    overlay [span]; when [html2canvas] succeeds the download is triggered
    and the [span] is removed again, and when [html2canvas] throws the
    error is logged, nothing is downloaded and the [span] stays
    attached. *)
Theorem overlay_removed_only_on_success (poolType : string)
  (poolData : gmap string (option PoolEntry)) (b : Browser)
  (children : list Element) :
  current b = Some children →
  Forall (fun e => (elem_id e < next_id b)%nat) children →
  let span := overlay toLocaleString poolType poolData b in
  let b' := handleSaveToPng toLocaleString html2canvas poolType poolData b in
  (span ∉ children)
  ∧ (∀ png, html2canvas (Some (children ++ [span])%list) = Canvas png →
       current b' = Some children
       ∧ downloads b'
         = (downloads b
            ++ [(("zcash-" ++ poolType ++ "-pool-chart.png")%string, png)])%list
       ∧ console b' = console b)
  ∧ (∀ err, html2canvas (Some (children ++ [span])%list) = RasterError err →
       current b' = Some (children ++ [span])%list
       ∧ downloads b' = downloads b
       ∧ console b'
         = (console b ++ [("Error saving chart: " ++ err)%string])%list).
Proof.
  intros Hcur Hfresh span b'.
  split.
  { intros Hin. rewrite Forall_forall in Hfresh.
    specialize (Hfresh span Hin). simpl in Hfresh. lia. }
  subst b'. unfold handleSaveToPng. rewrite Hcur. simpl. fold span.
  split.
  - intros png ->. by rewrite (removeChild_appended children span Hfresh).
  - by intros err ->.
Qed.

(** C8: for [poolType = "sprout"] and a non-null ["sproutSupply"] entry,
    the label of the overlay is the locale string of its supply followed
    by [" ZEC in Sprout Pool"]. *)
Theorem sprout_label (poolData : gmap string (option PoolEntry))
  (entry : PoolEntry) (b : Browser) :
  poolData !! "sproutSupply" = Some (Some entry) →
  poolQtyText toLocaleString "sprout" poolData
  = toLocaleString (supply entry) ++ " ZEC in Sprout Pool"
  ∧ textContent (overlay toLocaleString "sprout" poolData b)
    = toLocaleString (supply entry) ++ " ZEC in Sprout Pool".
Proof.
  intros Hentry. unfold overlay, poolQtyText, supplyText. simpl.
  by rewrite Hentry.
Qed.

(** C10: for each of the three pool types, when the entry of the pool is
    [null] or missing, the label is ["undefined ZEC in <Pool> Pool"], and
    so not the empty string. *)
Theorem missing_entry_label (poolData : gmap string (option PoolEntry))
  (poolType key pool : string) :
  (poolType, key, pool) ∈ [("sprout", "sproutSupply", "Sprout");
                            ("sapling", "saplingSupply", "Sapling");
                            ("orchard", "orchardSupply", "Orchard")] →
  poolData !! key = None ∨ poolData !! key = Some None →
  poolQtyText toLocaleString poolType poolData
  = "undefined ZEC in " ++ pool ++ " Pool"
  ∧ poolQtyText toLocaleString poolType poolData ≠ EmptyString.
Proof.
  intros Hpool Hmissing.
  assert (Htext : supplyText toLocaleString poolData key = None).
  { unfold supplyText. by destruct Hmissing as [-> | ->]. }
  repeat (apply elem_of_cons in Hpool as [Hpool|Hpool]);
    [inversion Hpool; subst..|by apply elem_of_nil in Hpool];
    unfold poolQtyText; simpl; rewrite Htext; simpl; split; done.
Qed.

End ExportProofs.

(** ** The theorems at concrete inputs *)

Section Instances.

Import Examples.
Local Open Scope string_scope.

(** The two-point series of the specification is chronological, and
    [midpoint] is equally far from both observations. *)
Lemma two_points_sorted :
  sorted_series MdY.Date_parse_mdY two_points = true.
Proof. reflexivity. Qed.

Lemma midpoint_equidistant :
  getDate MdY.Date_parse_mdY first_point = Some (midpoint - 183 * 86400000)
  ∧ getDate MdY.Date_parse_mdY second_point = Some (midpoint + 183 * 86400000).
Proof. split; reflexivity. Qed.

(** C1 as stated fails: at the midpoint of the two-point series the
    left observation is selected, not the second one. *)
Lemma midpoint_selects_first_point :
  handleTooltip MdY.Date_parse_mdY two_points (Some midpoint) = Val first_point
  ∧ handleTooltip MdY.Date_parse_mdY two_points (Some midpoint)
    ≠ Val second_point.
Proof. split; [reflexivity|]. vm_compute. discriminate. Qed.

Lemma handleTooltip_nearest_ties_left_witness :
  sorted_series MdY.Date_parse_mdY two_points = true
  ∧ two_points ≠ []
  ∧ Z.of_nat (length two_points) < 2 ^ 31
  ∧ ∃ d,
      handleTooltip MdY.Date_parse_mdY two_points (Some midpoint) = Val d
      ∧ nearest MdY.Date_parse_mdY two_points midpoint d
      ∧ ∀ (i : nat) d0 d1 t0 t1,
          two_points !! i = Some d0 → two_points !! S i = Some d1 →
          getDate MdY.Date_parse_mdY d0 = Some t0 →
          getDate MdY.Date_parse_mdY d1 = Some t1 →
          t0 < midpoint → midpoint - t0 = t1 - midpoint →
          d = d0.
Proof.
  split; [reflexivity|]. split; [discriminate|]. split; [reflexivity|].
  apply (handleTooltip_nearest_ties_left MdY.Date_parse_mdY two_points midpoint);
    [reflexivity|discriminate|reflexivity].
Defined.

Lemma handleTooltip_boundary_witness :
  sorted_series MdY.Date_parse_mdY two_points = true
  ∧ Z.of_nat (length two_points) < 2 ^ 31
  ∧ (∀ d t, head two_points = Some d →
            getDate MdY.Date_parse_mdY d = Some t → 0 < t →
            handleTooltip MdY.Date_parse_mdY two_points (Some 0) = Val d)
  ∧ (∀ d t, last two_points = Some d →
            getDate MdY.Date_parse_mdY d = Some t → t < 0 →
            handleTooltip MdY.Date_parse_mdY two_points (Some 0) = Val d).
Proof.
  split; [reflexivity|]. split; [reflexivity|].
  apply (handleTooltip_boundary MdY.Date_parse_mdY two_points 0);
    reflexivity.
Defined.

Lemma single_point_renders_witness :
  getDate MdY.Date_parse_mdY epoch_point = Some 0
  ∧ render (state (run [Fulfilled [epoch_point]])) = ChartView
  ∧ D3.extent [epoch_point] (getDate MdY.Date_parse_mdY) = Some (0, 0)
  ∧ areaX MdY.Date_parse_mdY [epoch_point] plain_layout epoch_point
    = Some (D3.interpolateNumber (margin_left plain_layout)
              (innerWidth plain_layout + margin_left plain_layout) (1 # 2))
  ∧ is_Some (areaY unrounded [epoch_point] plain_layout epoch_point)
  ∧ ∀ x0 : Date,
      handleTooltip MdY.Date_parse_mdY [epoch_point] x0 = Val epoch_point.
Proof.
  split; [reflexivity|].
  apply (single_point_renders MdY.Date_parse_mdY unrounded epoch_point 0
           plain_layout).
  reflexivity.
Defined.

Lemma overlay_removed_only_on_success_witness :
  PngExport.current page = Some [svg]
  ∧ Forall (fun e => (PngExport.elem_id e < PngExport.next_id page)%nat) [svg]
  ∧ PngExport.current
      (PngExport.handleSaveToPng PngExport.toLocaleString_enUS rasterizer_ok
         "sprout" balances page)
    = Some [svg]
  ∧ PngExport.current
      (PngExport.handleSaveToPng PngExport.toLocaleString_enUS
         rasterizer_throws "sprout" balances page)
    = Some [svg; PngExport.overlay PngExport.toLocaleString_enUS "sprout"
                   balances page].
Proof.
  assert (Hfresh :
    Forall (fun e => (PngExport.elem_id e < PngExport.next_id page)%nat) [svg]).
  { repeat constructor. }
  split; [reflexivity|]. split; [exact Hfresh|].
  split.
  - destruct (overlay_removed_only_on_success PngExport.toLocaleString_enUS
                rasterizer_ok "sprout" balances page [svg] eq_refl Hfresh)
      as (_ & Hok & _).
    destruct (Hok "data:image/png;base64," eq_refl) as (Hcur & _).
    exact Hcur.
  - destruct (overlay_removed_only_on_success PngExport.toLocaleString_enUS
                rasterizer_throws "sprout" balances page [svg] eq_refl Hfresh)
      as (_ & _ & Hthrow).
    destruct (Hthrow "SecurityError" eq_refl) as (Hcur & _).
    exact Hcur.
Defined.

Lemma sprout_label_witness :
  balances !! "sproutSupply"
  = Some (Some {| PngExport.timestamp := "2024-01-01";
                  PngExport.supply := 1234567 |})
  ∧ PngExport.poolQtyText PngExport.toLocaleString_enUS "sprout" balances
    = "1,234,567 ZEC in Sprout Pool".
Proof.
  split; [reflexivity|].
  destruct (sprout_label PngExport.toLocaleString_enUS balances
              {| PngExport.timestamp := "2024-01-01";
                 PngExport.supply := 1234567 |} page eq_refl) as [Htext _].
  exact Htext.
Defined.

Lemma missing_entry_label_witness :
  (balances_null !! "sproutSupply" = None
   ∨ balances_null !! "sproutSupply" = Some None)
  ∧ (balances !! "orchardSupply" = None
     ∨ balances !! "orchardSupply" = Some None)
  ∧ PngExport.poolQtyText PngExport.toLocaleString_enUS "sprout" balances_null
    = "undefined ZEC in Sprout Pool"
  ∧ PngExport.poolQtyText PngExport.toLocaleString_enUS "orchard" balances
    = "undefined ZEC in Orchard Pool".
Proof.
  assert (H1 : balances_null !! "sproutSupply" = None
               ∨ balances_null !! "sproutSupply" = Some None)
    by (right; reflexivity).
  assert (H2 : balances !! "orchardSupply" = None
               ∨ balances !! "orchardSupply" = Some None)
    by (left; reflexivity).
  split; [exact H1|]. split; [exact H2|]. split.
  - apply (missing_entry_label PngExport.toLocaleString_enUS balances_null
             "sprout" "sproutSupply" "Sprout"); [|exact H1].
    apply list_elem_of_here.
  - apply (missing_entry_label PngExport.toLocaleString_enUS balances
             "orchard" "orchardSupply" "Orchard"); [|exact H2].
    apply list_elem_of_further, list_elem_of_further, list_elem_of_here.
Defined.

End Instances.

(** * Further properties of the code *)

(** ** The loader: requests, data and error over the component's life *)

Section LoaderInvariants.

(** With nothing pending, nothing settles. *)
Lemma after_idle (rs : list Response) (c : Component) :
  inflight c = 0%nat → after rs c = c.
Proof.
  intros Hidle. unfold after.
  induction rs as [|r rs IH]; [done|].
  simpl. unfold settle at 2. rewrite Hidle. exact IH.
Qed.

(** X1: in every reachable state at most one request is pending; the
    loading flag is set exactly while a request is pending, and the
    component holds no data exactly while a request is pending. *)
Theorem one_request_at_a_time (c : Component) :
  reachable c →
  (inflight c ≤ 1)%nat
  ∧ (isLoading (state c) = true ↔ inflight c = 1%nat)
  ∧ (chartData (state c) = [] ↔ inflight c = 1%nat).
Proof.
  intros Hreach.
  destruct (reachable_fetching_or_loaded c Hreach)
    as [(Hin & Hload & Hdata)|(Hin & Hload & Hdata)].
  - rewrite Hin, Hload, Hdata. repeat split; done.
  - rewrite Hin, Hload. repeat split; try done; try lia.
Qed.

(** X2: once a non-empty series is stored, the component is at rest:
    no request is pending, and whatever answers are offered later, the
    state, the data and the number of requests made stay as they are. *)
Theorem stored_data_is_final (c : Component) (rs : list Response) :
  reachable c →
  chartData (state c) ≠ [] →
  inflight c = 0%nat ∧ after rs c = c.
Proof.
  intros Hreach Hdata.
  destruct (reachable_fetching_or_loaded c Hreach)
    as [(_ & _ & Hempty)|(Hin & _)]; [done|].
  split; [done|by apply after_idle].
Qed.

(** One answer keeps a recorded error recorded. *)
Lemma settle_keeps_error (r : Response) (c : Component) :
  is_Some (error (state c)) → is_Some (error (state (settle r c))).
Proof.
  intros Herr. unfold settle. destruct (inflight c); [done|].
  destruct (state c) as [data loading err]. simpl in Herr.
  destruct r as [data'|e]; unfold update, effect; simpl;
    repeat (case_match; simpl); eauto.
Qed.

(** X3: the error is never reset.  From a state that holds an error, no
    sequence of answers leads to a state that renders the chart, not even
    a later successful fetch. *)
Theorem error_is_never_cleared (c : Component) (e : string)
  (rs : list Response) :
  error (state c) = Some e →
  is_Some (error (state (after rs c)))
  ∧ render (state (after rs c)) ≠ ChartView.
Proof.
  intros Herr.
  assert (Hkept : is_Some (error (state (after rs c)))).
  { assert (Hsome : is_Some (error (state c))) by (by rewrite Herr).
    clear Herr. unfold after. revert c Hsome.
    induction rs as [|r rs IH]; intros c Hsome; simpl; [done|].
    by apply IH, settle_keeps_error. }
  split; [done|].
  destruct Hkept as [e' He']. unfold render. rewrite He'.
  by destruct (_ || _).
Qed.

(** X4: which branch a reachable state renders is decided by the data and
    the error alone: the loading message exactly when no data is held, the
    chart exactly when data is held and no error was recorded, the error
    message exactly when data is held and an error was recorded. *)
Theorem render_branch_of_reachable (c : Component) :
  reachable c →
  (render (state c) = LoadingView ↔ chartData (state c) = [])
  ∧ (render (state c) = ChartView
     ↔ chartData (state c) ≠ [] ∧ error (state c) = None)
  ∧ (render (state c) = ErrorView
     ↔ chartData (state c) ≠ [] ∧ is_Some (error (state c))).
Proof.
  intros Hreach.
  destruct (reachable_fetching_or_loaded c Hreach)
    as [(_ & _ & Hdata)|(_ & Hload & Hdata)].
  - rewrite (render_empty _ Hdata).
    repeat split; try done; intros [? ?]; done.
  - unfold render. rewrite Hload.
    destruct (chartData (state c)) as [|d data]; [done|]. simpl.
    destruct (error (state c)) as [e|].
    + split; [split; done|]. split.
      * split; [done|]. intros [_ ?]; done.
      * split; [eauto|done].
    + split; [split; done|]. split.
      * split; done.
      * split; [done|]. intros [_ [? ?]]; done.
Qed.

(** X5: an answer that brings no data, be it a failure or an empty
    series, makes the component fetch again at once: in every reachable
    state with a pending request, settling it without data raises the
    number of requests by one and leaves one request pending. *)
Theorem answer_without_data_refetches (c : Component) (r : Response) :
  reachable c →
  (0 < inflight c)%nat →
  without_data r →
  requests (settle r c) = S (requests c) ∧ fetching (settle r c).
Proof.
  intros Hreach Hpending Hr.
  destruct (reachable_fetching_or_loaded c Hreach)
    as [(Hin & Hload & Hdata)|(Hin & _)]; [|lia].
  destruct c as [[data loading err] req pending]. simpl in *. subst.
  destruct Hr as [->|[e ->]]; by vm_compute.
Qed.

(** X6: what the first request stores.  A non-empty series [data] ends up
    in [chartData] exactly when the fetch answered with a status from 200
    to 299 and a body that parses to [data]; a network error, any other
    status (whatever the body) and a body that does not parse store
    nothing. *)
Theorem only_ok_responses_store_data (f : Http.FetchResult)
  (data : list ShieldedAmountDatum) :
  data ≠ [] →
  chartData (state (settle (Http.fetchShieldedSupplyData f) mount)) = data
  ↔ ∃ r, f = Http.Responded r
         ∧ Http.ok r = true ∧ Http.json r = inl data.
Proof.
  intros Hne. split.
  - destruct f as [e|r]; simpl.
    + intros H. by rewrite <- H in Hne.
    + destruct (Http.ok r) eqn:Hok; simpl.
      * destruct (Http.json r) as [data'|e] eqn:Hjson.
        -- intros H. exists r. split; [done|]. split; [done|].
           destruct data' as [|d data']; vm_compute in H; by subst.
        -- intros H. by rewrite <- H in Hne.
      * intros H. by rewrite <- H in Hne.
  - intros (r & -> & Hok & Hjson). simpl. rewrite Hok, Hjson. simpl.
    by destruct data.
Qed.

End LoaderInvariants.

(** ** The tooltip handler: safety and edge cases *)

Section TooltipEdges.

Variable Date_parse : string → Date.

(** X7: the handler is attached to the chart only, and there it cannot
    throw.  In every state that renders the chart, for every pointer
    date, an invalid one included, and without any assumption on the
    order or the validity of the dates, [handleTooltip] hands an
    observation of the series to [showTooltip]. *)
Theorem tooltip_handler_is_safe (s : State) (x0 : Date) :
  render s = ChartView →
  Z.of_nat (length (chartData s)) < 2 ^ 31 →
  ∃ d, handleTooltip Date_parse (chartData s) x0 = Val d ∧ d ∈ chartData s.
Proof.
  intros Hview Hsmall.
  apply handleTooltip_returns; [|done].
  intros Hempty. by rewrite (render_empty s Hempty) in Hview.
Qed.

(** X8: a pointer date that is not a valid date selects the last
    observation: the bisector answers [hi] at once, and no right
    neighbour exists. *)
Theorem invalid_pointer_selects_last (data : list ShieldedAmountDatum)
  (d : ShieldedAmountDatum) :
  last data = Some d →
  handleTooltip Date_parse data Js.NaN = Val d.
Proof.
  intros Hlast. rewrite last_lookup in Hlast.
  assert (Hlen : (0 < length data)%nat).
  { destruct data; [done|]. simpl. lia. }
  unfold handleTooltip, bisectDate, D3.left.
  assert (Hidx : (if 1 <? Z.of_nat (length data)
                  then if Js.strict_ne (D3.ascending Js.NaN Js.NaN) (Some 0)
                       then Val (Z.of_nat (length data))
                       else D3.left_loop (fun d => Date_parse (close d))
                              (Z.to_nat (Z.of_nat (length data) - 1)) data
                              Js.NaN 1 (Z.of_nat (length data))
                  else Val 1) = Val (Z.of_nat (length data))).
  { destruct (Z.ltb_spec 1 (Z.of_nat (length data))); [done|].
    f_equal. lia. }
  rewrite Hidx.
  rewrite !index_nonneg by lia.
  replace (Z.to_nat (Z.of_nat (length data) - 1)) with (pred (length data))
    by lia.
  rewrite Hlast, Nat2Z.id.
  by rewrite (lookup_ge_None_2 data (length data)) by lia.
Qed.

(** X9: pointing exactly at the date of an observation of a chronological
    series selects an observation of exactly that date. *)
Theorem exact_date_is_selected (data : list ShieldedAmountDatum)
  (d : ShieldedAmountDatum) (x : Z) :
  sorted_series Date_parse data = true →
  Z.of_nat (length data) < 2 ^ 31 →
  d ∈ data →
  getDate Date_parse d = Some x →
  ∃ d', handleTooltip Date_parse data (Some x) = Val d'
        ∧ d' ∈ data
        ∧ getDate Date_parse d' = Some x.
Proof.
  intros Hss Hsmall Hin Hdate.
  destruct (sorted_series_times Date_parse data Hss)
    as (ts & Htimes & Hsorted).
  assert (Hne : data ≠ []).
  { intros ->. by apply elem_of_nil in Hin. }
  destruct (handleTooltip_core Date_parse data ts x Htimes Hsorted Hsmall Hne)
    as (idx & d0 & t0 & Hidx & Hbelow & Habove & Hd0 & Ht0 & Hrun).
  destruct (times_lookup Date_parse data ts Htimes _ _ Hd0)
    as (t0' & Ht0' & Hdate0).
  assert (t0' = t0) by congruence. subst t0'.
  destruct (elem_of_times Date_parse data ts d x Htimes Hin Hdate)
    as (j & Hj & Hjt).
  rewrite Hrun.
  destruct (data !! idx) as [d1|] eqn:Hd1.
  - destruct (times_lookup Date_parse data ts Htimes _ _ Hd1)
      as (t1 & Ht1 & Hdate1).
    rewrite Ht1.
    pose proof (Habove idx t1 ltac:(lia) Ht1) as Hx1.
    destruct (decide (idx ≤ j)%nat) as [Hge|Hlt].
    + (* the observation at [idx] has the date [x] *)
      pose proof (nondecreasing_lookup ts Hsorted idx j t1 x Hge Ht1 Hjt).
      assert (t1 = x) by lia. subst t1.
      destruct (Z.ltb_spec (x - x) (x - t0)) as [Hnear|Hfar].
      * exists d1. repeat split; [by eapply list_elem_of_lookup_2|done].
      * pose proof (nondecreasing_lookup ts Hsorted (idx - 1)%nat idx t0 x
                      ltac:(lia) Ht0 Ht1).
        assert (t0 = x) by lia. subst t0.
        exists d0. repeat split; [by eapply list_elem_of_lookup_2|done].
    + (* the observation is at index 0 = [idx - 1] *)
      assert (j = 0%nat).
      { destruct (decide (j = 0%nat)) as [|Hpos]; [done|exfalso].
        pose proof (Hbelow j x ltac:(lia) Hjt). lia. }
      subst j.
      pose proof (nondecreasing_lookup ts Hsorted 0%nat (idx - 1)%nat x t0
                    ltac:(lia) Hjt Ht0).
      assert (idx = 1%nat).
      { destruct (decide (idx = 1%nat)) as [|Hneq]; [done|exfalso].
        pose proof (Hbelow (idx - 1)%nat t0 ltac:(lia) Ht0). lia. }
      subst idx. simpl in Ht0. assert (t0 = x) by congruence. subst t0.
      destruct (Z.ltb_spec (t1 - x) (x - x)) as [Hnear|Hfar]; [lia|].
      exists d0. repeat split; [by eapply list_elem_of_lookup_2|done].
  - assert (idx = length data).
    { apply lookup_ge_None in Hd1. lia. }
    apply lookup_lt_Some in Hj as Hjlen.
    pose proof (nondecreasing_lookup ts Hsorted j (idx - 1)%nat x t0
                  ltac:(lia) Hjt Ht0).
    assert (t0 = x).
    { destruct (decide (j = (idx - 1)%nat)) as [->|Hneq]; [congruence|].
      pose proof (Hbelow (idx - 1)%nat t0 ltac:(lia) Ht0). lia. }
    subst t0.
    exists d0. repeat split; [by eapply list_elem_of_lookup_2|done].
Qed.

End TooltipEdges.

(** ** The geometry of the area *)

Section Geometry.

Local Open Scope Q_scope.

(** [extent] bounds every valid date of the series. *)
Lemma extent_bounds {A} (values : list A) (valueof : A → Date) (d : A)
  (t : Z) :
  d ∈ values → valueof d = Some t →
  ∃ mn mx, D3.extent values valueof = Some (mn, mx) ∧ (mn ≤ t ≤ mx)%Z.
Proof.
  unfold D3.extent.
  set (f := fun (acc : option (Z * Z)) (d : A) =>
              match acc, valueof d with
              | _, None => acc
              | None, Some v => Some (v, v)
              | Some (mn, mx), Some v =>
                  Some (if (v <? mn)%Z then v else mn,
                        if (mx <? v)%Z then v else mx)
              end).
  assert (Hmono : ∀ l mn mx,
            ∃ mn' mx', fold_left f l (Some (mn, mx)) = Some (mn', mx')
                       ∧ (mn' ≤ mn)%Z ∧ (mx ≤ mx')%Z).
  { induction l as [|a l IH]; intros mn mx; simpl.
    - exists mn, mx. repeat split; [done|lia..].
    - destruct (valueof a) as [v|]; [|exact (IH mn mx)].
      destruct (IH (if (v <? mn)%Z then v else mn)
                   (if (mx <? v)%Z then v else mx))
        as (mn' & mx' & Hfold & Hmn & Hmx).
      exists mn', mx'. split; [done|].
      destruct (Z.ltb_spec v mn), (Z.ltb_spec mx v); lia. }
  intros Hin Hd.
  assert (Hf : ∀ acc, f acc d
                 = match acc with
                   | Some (mn, mx) =>
                       Some (if (t <? mn)%Z then t else mn,
                             if (mx <? t)%Z then t else mx)
                   | None => Some (t, t)
                   end).
  { intros [[mn mx]|]; unfold f; by rewrite Hd. }
  assert (Hall : ∀ l acc, d ∈ l →
            ∃ mn mx, fold_left f l acc = Some (mn, mx) ∧ (mn ≤ t ≤ mx)%Z).
  { induction l as [|a l IH]; intros acc Hl.
    - by apply elem_of_nil in Hl.
    - apply elem_of_cons in Hl as [<-|Hl]; simpl.
      + rewrite Hf. destruct acc as [[mn mx]|].
        * destruct (Hmono l (if (t <? mn)%Z then t else mn)
                            (if (mx <? t)%Z then t else mx))
            as (mn' & mx' & Hfold & Hmn & Hmx).
          exists mn', mx'. split; [done|].
          destruct (Z.ltb_spec t mn), (Z.ltb_spec mx t); lia.
        * destruct (Hmono l t t) as (mn' & mx' & Hfold & Hmn & Hmx).
          exists mn', mx'. split; [done|lia].
      + by apply IH. }
  by apply Hall.
Qed.

(** Both bounds of [extent] are dates of the series. *)
Lemma extent_attained {A} (values : list A) (valueof : A → Date)
  (mn mx : Z) :
  D3.extent values valueof = Some (mn, mx) →
  (∃ d, d ∈ values ∧ valueof d = Some mn)
  ∧ (∃ d, d ∈ values ∧ valueof d = Some mx).
Proof.
  unfold D3.extent.
  set (f := fun (acc : option (Z * Z)) (d : A) =>
              match acc, valueof d with
              | _, None => acc
              | None, Some v => Some (v, v)
              | Some (mn, mx), Some v =>
                  Some (if (v <? mn)%Z then v else mn,
                        if (mx <? v)%Z then v else mx)
              end).
  set (P := fun t : Z => ∃ d, d ∈ values ∧ valueof d = Some t).
  assert (Hinv : ∀ l acc,
            (∀ d, d ∈ l → d ∈ values) →
            (∀ a b, acc = Some (a, b) → P a ∧ P b) →
            ∀ a b, fold_left f l acc = Some (a, b) → P a ∧ P b).
  { induction l as [|x l IH]; intros acc Hsub Hacc a b Hfold; simpl in Hfold.
    - by apply Hacc.
    - apply (IH (f acc x)); [|clear a b Hfold|done].
      { intros d' Hd'. apply Hsub. by apply elem_of_cons; right. }
      intros a b Hstep. unfold f in Hstep.
      destruct (valueof x) as [v|] eqn:Hv.
      + assert (Pv : P v).
        { exists x. split; [|done]. apply Hsub, list_elem_of_here. }
        destruct acc as [[a0 b0]|].
        * destruct (Hacc a0 b0 eq_refl) as [Pa Pb].
          inversion Hstep; subst.
          split; [by destruct (v <? a0)%Z|by destruct (b0 <? v)%Z].
        * inversion Hstep; subst. by split.
      + destruct acc as [[a0 b0]|]; [|done].
        inversion Hstep; subst. by apply Hacc. }
  intros Hfold. apply (Hinv values None); [done|done|done].
Qed.

Variable Date_parse : string → Date.

(** The horizontal coordinate of an observation with a valid date, given
    the extent of the series. *)
Lemma areaX_bimap (data : list ShieldedAmountDatum) (l : Layout)
  (d : ShieldedAmountDatum) (t mn mx : Z) :
  getDate Date_parse d = Some t →
  D3.extent data (getDate Date_parse) = Some (mn, mx) →
  areaX Date_parse data l d
  = D3.bimap (inject_Z mn, inject_Z mx)
      (margin_left l, innerWidth l + margin_left l) (inject_Z t).
Proof.
  intros Hd Hext. unfold areaX, dateScale. by rewrite Hd, Hext.
Qed.

(** The extent of a chronological series is the pair of its first and
    last dates. *)
Lemma extent_sorted (data : list ShieldedAmountDatum)
  (df dl : ShieldedAmountDatum) (tf tl : Z) :
  sorted_series Date_parse data = true →
  head data = Some df → last data = Some dl →
  getDate Date_parse df = Some tf →
  getDate Date_parse dl = Some tl →
  D3.extent data (getDate Date_parse) = Some (tf, tl).
Proof.
  intros Hss Hhead Hlast Hdf Hdl.
  destruct (sorted_series_times Date_parse data Hss)
    as (ts & Htimes & Hsorted).
  rewrite head_lookup in Hhead. rewrite last_lookup in Hlast.
  destruct (times_lookup Date_parse data ts Htimes _ _ Hhead)
    as (tf' & Htf & Hdf').
  destruct (times_lookup Date_parse data ts Htimes _ _ Hlast)
    as (tl' & Htl & Hdl').
  assert (tf' = tf) by congruence. assert (tl' = tl) by congruence.
  subst tf' tl'.
  assert (Hrange : ∀ d t, d ∈ data → getDate Date_parse d = Some t →
                     (tf ≤ t ≤ tl)%Z).
  { intros d t Hin Hd.
    destruct (elem_of_times Date_parse data ts d t Htimes Hin Hd)
      as (j & Hj & Hjt).
    apply lookup_lt_Some in Hj as Hjlen. split.
    - apply (nondecreasing_lookup ts Hsorted 0%nat j); [lia|done..].
    - apply (nondecreasing_lookup ts Hsorted j (pred (length data)));
        [lia|done..]. }
  destruct (extent_bounds data (getDate Date_parse) df tf) as
    (mn & mx & Hext & Hb); [by eapply list_elem_of_lookup_2|done|].
  destruct (extent_attained data (getDate Date_parse) mn mx Hext)
    as [(dmn & Hmn_in & Hmn) (dmx & Hmx_in & Hmx)].
  pose proof (Hrange dmn mn Hmn_in Hmn).
  pose proof (Hrange dmx mx Hmx_in Hmx).
  pose proof (Hrange dl tl ltac:(by eapply list_elem_of_lookup_2) Hdl).
  destruct (extent_bounds data (getDate Date_parse) dl tl) as
    (mn' & mx' & Hext' & Hb'); [by eapply list_elem_of_lookup_2|done|].
  assert (mn' = mn ∧ mx' = mx) as [-> ->] by (split; congruence).
  rewrite Hext. f_equal. f_equal; lia.
Qed.

(** X11: the area spans the full inner width.  On a chronological series
    whose first date is before its last, the first observation is drawn at
    [margin.left] and the last at [innerWidth + margin.left]. *)
Theorem area_spans_inner_width (data : list ShieldedAmountDatum) (l : Layout)
  (df dl : ShieldedAmountDatum) (tf tl : Z) :
  sorted_series Date_parse data = true →
  head data = Some df → last data = Some dl →
  getDate Date_parse df = Some tf →
  getDate Date_parse dl = Some tl →
  (tf < tl)%Z →
  ∃ xf xl,
    areaX Date_parse data l df = Some xf ∧ xf == margin_left l
    ∧ areaX Date_parse data l dl = Some xl
    ∧ xl == innerWidth l + margin_left l.
Proof.
  intros Hss Hhead Hlast Hdf Hdl Hlt.
  pose proof (extent_sorted data df dl tf tl Hss Hhead Hlast Hdf Hdl) as Hext.
  rewrite (areaX_bimap data l df tf tf tl Hdf Hext).
  rewrite (areaX_bimap data l dl tl tf tl Hdl Hext).
  assert (Hwidth : 0 < inject_Z tl - inject_Z tf).
  { rewrite Zlt_Qlt in Hlt. lra. }
  unfold D3.bimap.
  assert (Hnot : D3.Qltb (inject_Z tl) (inject_Z tf) = false).
  { destruct (D3.Qltb (inject_Z tl) (inject_Z tf)) eqn:E; [|done].
    apply Qltb_lt in E. lra. }
  rewrite Hnot. unfold D3.normalize, D3.fdiv.
  assert (Hne : Qeq_bool (inject_Z tl - inject_Z tf) 0 = false).
  { destruct (Qeq_bool (inject_Z tl - inject_Z tf) 0) eqn:E; [|done].
    apply Qeq_bool_iff in E. lra. }
  rewrite Hne. simpl. eexists _, _.
  split; [done|]. split; [|split; [done|]].
  - unfold D3.interpolateNumber. field. lra.
  - unfold D3.interpolateNumber. field. lra.
Qed.

End Geometry.

(** ** The export hook over several exports *)

Section ExportSequences.

Import PngExport.

Variable toLocaleString : Q → string.
Variable html2canvas : option (list Element) → Raster.

(** A text with a non-empty suffix is not empty. *)
Lemma append_not_empty (s t : string) :
  t ≠ EmptyString → (s ++ t)%string ≠ EmptyString.
Proof. intros Ht. destruct s; simpl; [done|discriminate]. Qed.

(** X14: for each of the three pools, when the entry of the pool is
    present, the label is the locale string of its supply followed by
    [" ZEC in <Pool> Pool"]; the entries of the other pools play no
    role. *)
Theorem label_of_present_entry (poolData : gmap string (option PoolEntry))
  (poolType key pool : string) (entry : PoolEntry) :
  (poolType, key, pool) ∈ labelled_pools →
  poolData !! key = Some (Some entry) →
  poolQtyText toLocaleString poolType poolData
  = (toLocaleString (supply entry) ++ " ZEC in " ++ pool ++ " Pool")%string.
Proof.
  intros Hpool Hentry. unfold labelled_pools in Hpool.
  repeat (apply elem_of_cons in Hpool as [Hpool|Hpool]);
    [inversion Hpool; subst..|by apply elem_of_nil in Hpool];
    unfold poolQtyText, supplyText; simpl; by rewrite Hentry.
Qed.

(** X15: the label is empty exactly for a pool type other than
    ["sprout"], ["orchard"] and ["sapling"] (for instance ["default"]),
    whatever the balances are. *)
Theorem label_empty_iff_unknown_pool (poolType : string)
  (poolData : gmap string (option PoolEntry)) :
  poolQtyText toLocaleString poolType poolData = EmptyString
  ↔ poolType ∉ ["sprout"; "orchard"; "sapling"]%string.
Proof.
  unfold poolQtyText, PoolsType.sprout, PoolsType.ord, PoolsType.sap.
  destruct (String.eqb_spec poolType "sprout") as [->|Hs].
  { split.
    - intros H. by apply append_not_empty in H.
    - intros H. exfalso. apply H. apply list_elem_of_here. }
  destruct (String.eqb_spec poolType "orchard") as [->|Ho].
  { split.
    - intros H. by apply append_not_empty in H.
    - intros H. exfalso. apply H.
      apply list_elem_of_further, list_elem_of_here. }
  destruct (String.eqb_spec poolType "sapling") as [->|Ha].
  { split.
    - intros H. by apply append_not_empty in H.
    - intros H. exfalso. apply H.
      apply list_elem_of_further, list_elem_of_further, list_elem_of_here. }
  split; [|done]. intros _ Hin.
  repeat (apply elem_of_cons in Hin as [Hin|Hin]); try done.
  by apply elem_of_nil in Hin.
Qed.

(** X16: an export never touches the other children of the chart's
    [div].  Whatever [html2canvas] does, the children afterwards are the
    children before, possibly followed by the overlay of this call; a ref
    that is [null] stays [null]; downloads and log lines are only added;
    and the nodes stay older than the next node to be created. *)
Theorem export_keeps_other_children (poolType : string)
  (poolData : gmap string (option PoolEntry)) (b : Browser) :
  well_formed b →
  let span := overlay toLocaleString poolType poolData b in
  let b' := handleSaveToPng toLocaleString html2canvas poolType poolData b in
  well_formed b'
  ∧ (current b = None → current b' = None)
  ∧ (∀ children, current b = Some children →
       current b' = Some children
       ∨ current b' = Some (children ++ [span]))
  ∧ downloads b `prefix_of` downloads b'
  ∧ console b `prefix_of` console b'.
Proof.
  intros Hwf span b'. subst b'. unfold handleSaveToPng. fold span.
  unfold well_formed in *.
  destruct (current b) as [children|] eqn:Hcur; simpl.
  - assert (Hfresh : Forall (fun e => (elem_id e < elem_id span)%nat) children)
      by exact Hwf.
    destruct (html2canvas (Some (children ++ [span]))) as [png|err]; simpl.
    + rewrite (removeChild_appended children span Hfresh). simpl.
      split.
      { eapply Forall_impl; [exact Hwf|]. simpl. intros e He. lia. }
      split; [done|]. split.
      { intros cs Hcs. inversion Hcs; subst. by left. }
      split; [by apply prefix_app_r|done].
    + split.
      { apply Forall_app. split.
        - eapply Forall_impl; [exact Hwf|]. simpl. intros e He. lia.
        - apply Forall_singleton. simpl. lia. }
      split; [done|]. split.
      { intros cs Hcs. inversion Hcs; subst. by right. }
      split; [done|by apply prefix_app_r].
  - destruct (html2canvas None) as [png|err]; simpl.
    + split; [done|]. split; [done|]. split; [done|].
      split; [by apply prefix_app_r|done].
    + split; [done|]. split; [done|]. split; [done|].
      split; [done|by apply prefix_app_r].
Qed.

(** X17: every failed export leaks one overlay.  When [html2canvas] keeps
    throwing, [n] exports leave [n] more [span]s under the chart's [div],
    each with the label of its call, after the children that were there;
    nothing is downloaded. *)
Theorem failed_exports_accumulate (poolType : string)
  (poolData : gmap string (option PoolEntry)) (b : Browser)
  (children : list Element) (n : nat) :
  (∀ x, ∃ err, html2canvas x = RasterError err) →
  well_formed b →
  current b = Some children →
  let b' := Nat.iter n
              (handleSaveToPng toLocaleString html2canvas poolType poolData) b in
  ∃ spans,
    current b' = Some (children ++ spans)
    ∧ length spans = n
    ∧ Forall (fun s => tagName s = "span"%string
                       ∧ textContent s
                         = poolQtyText toLocaleString poolType poolData) spans
    ∧ downloads b' = downloads b.
Proof.
  intros Hfail Hwf Hcur. simpl.
  induction n as [|n IH].
  { exists []. simpl. rewrite app_nil_r. by repeat split. }
  destruct IH as (spans & Hcur' & Hlen & Hspans & Hdl).
  simpl.
  set (bn := Nat.iter n
               (handleSaveToPng toLocaleString html2canvas poolType poolData) b)
    in *.
  destruct (Hfail (Some ((children ++ spans)
                         ++ [overlay toLocaleString poolType poolData bn])))
    as [err Herr].
  assert (Hstep :
    handleSaveToPng toLocaleString html2canvas poolType poolData bn
    = {| current := Some ((children ++ spans)
                          ++ [overlay toLocaleString poolType poolData bn]);
         next_id := S (next_id bn);
         downloads := downloads bn;
         console := console bn ++ [("Error saving chart: " ++ err)%string] |}).
  { unfold handleSaveToPng. rewrite Hcur'. simpl. by rewrite Herr. }
  rewrite Hstep. simpl.
  exists (spans ++ [overlay toLocaleString poolType poolData bn]).
  split; [by rewrite <- app_assoc|]. split.
  { rewrite length_app. simpl. lia. }
  split; [|done].
  apply Forall_app. split; [done|]. by apply Forall_singleton.
Qed.

(** X18: successful exports leave no trace in the document.  When
    [html2canvas] keeps succeeding, after [n] exports the children of the
    chart's [div] are exactly those from before (also for a ref that is
    [null]), [n] downloads were triggered and nothing was logged. *)
Theorem successful_exports_leave_no_trace (poolType : string)
  (poolData : gmap string (option PoolEntry)) (b : Browser) (n : nat) :
  (∀ x, ∃ png, html2canvas x = Canvas png) →
  well_formed b →
  let b' := Nat.iter n
              (handleSaveToPng toLocaleString html2canvas poolType poolData) b in
  current b' = current b
  ∧ length (downloads b') = (length (downloads b) + n)%nat
  ∧ console b' = console b.
Proof.
  intros Hok Hwf. simpl.
  assert (H : ∀ n,
    let b' := Nat.iter n
                (handleSaveToPng toLocaleString html2canvas poolType poolData) b
    in well_formed b'
       ∧ current b' = current b
       ∧ length (downloads b') = (length (downloads b) + n)%nat
       ∧ console b' = console b).
  { clear n. induction n as [|n IH]; simpl.
    { repeat split; [done|lia]. }
    simpl in IH. destruct IH as (Hwf' & Hcur' & Hdl & Hlog).
    set (bn := Nat.iter n
                 (handleSaveToPng toLocaleString html2canvas poolType poolData)
                 b) in *.
    destruct (export_keeps_other_children poolType poolData bn Hwf')
      as (Hwf'' & _).
    split; [exact Hwf''|].
    unfold handleSaveToPng. unfold well_formed in Hwf'.
    destruct (current bn) as [cs|] eqn:Hbn; simpl.
    - destruct (Hok (Some (cs ++ [overlay toLocaleString poolType poolData bn])))
        as [png ->].
      rewrite (removeChild_appended cs
                 (overlay toLocaleString poolType poolData bn) Hwf'). simpl.
      rewrite length_app. simpl. repeat split; [done|lia|done].
    - destruct (Hok None) as [png ->]. simpl.
      rewrite length_app. simpl. repeat split; [done|lia|done]. }
  destruct (H n) as (_ & ? & ? & ?). done.
Qed.

End ExportSequences.

(** ** The further properties at concrete inputs *)

Section FurtherInstances.

Import Examples.
Local Open Scope string_scope.

Lemma one_request_at_a_time_witness :
  reachable mount
  ∧ (inflight mount ≤ 1)%nat
  ∧ (isLoading (state mount) = true ↔ inflight mount = 1%nat)
  ∧ (chartData (state mount) = [] ↔ inflight mount = 1%nat).
Proof.
  assert (Hreach : reachable mount) by apply rtc_refl.
  split; [exact Hreach|].
  apply (one_request_at_a_time mount Hreach).
Defined.

Lemma stored_data_is_final_witness :
  reachable (settle (Fulfilled two_points) mount)
  ∧ chartData (state (settle (Fulfilled two_points) mount)) ≠ []
  ∧ inflight (settle (Fulfilled two_points) mount) = 0%nat
  ∧ after [Rejected "late"; Fulfilled []] (settle (Fulfilled two_points) mount)
    = settle (Fulfilled two_points) mount.
Proof.
  assert (Hreach : reachable (settle (Fulfilled two_points) mount)).
  { apply rtc_once, step_settle. simpl. lia. }
  assert (Hdata : chartData (state (settle (Fulfilled two_points) mount)) ≠ [])
    by discriminate.
  split; [exact Hreach|]. split; [exact Hdata|].
  apply (stored_data_is_final (settle (Fulfilled two_points) mount)
           [Rejected "late"; Fulfilled []] Hreach Hdata).
Defined.

Lemma error_is_never_cleared_witness :
  error (state (settle (Rejected "offline") mount)) = Some "offline"
  ∧ is_Some (error (state (after [Fulfilled two_points]
                             (settle (Rejected "offline") mount))))
  ∧ render (state (after [Fulfilled two_points]
                     (settle (Rejected "offline") mount))) ≠ ChartView.
Proof.
  split; [reflexivity|].
  apply (error_is_never_cleared (settle (Rejected "offline") mount) "offline"
           [Fulfilled two_points]).
  reflexivity.
Defined.

Lemma render_branch_of_reachable_witness :
  reachable mount
  ∧ (render (state mount) = LoadingView ↔ chartData (state mount) = [])
  ∧ (render (state mount) = ChartView
     ↔ chartData (state mount) ≠ [] ∧ error (state mount) = None)
  ∧ (render (state mount) = ErrorView
     ↔ chartData (state mount) ≠ [] ∧ is_Some (error (state mount))).
Proof.
  assert (Hreach : reachable mount) by apply rtc_refl.
  split; [exact Hreach|].
  apply (render_branch_of_reachable mount Hreach).
Defined.

Lemma answer_without_data_refetches_witness :
  reachable mount
  ∧ (0 < inflight mount)%nat
  ∧ without_data (Fulfilled [])
  ∧ requests (settle (Fulfilled []) mount) = 2%nat
  ∧ fetching (settle (Fulfilled []) mount).
Proof.
  assert (Hreach : reachable mount) by apply rtc_refl.
  assert (Hpending : (0 < inflight mount)%nat) by (simpl; lia).
  assert (Hr : without_data (Fulfilled [])) by (by left).
  split; [exact Hreach|]. split; [exact Hpending|]. split; [exact Hr|].
  apply (answer_without_data_refetches mount (Fulfilled []) Hreach Hpending Hr).
Defined.

Lemma only_ok_responses_store_data_witness :
  two_points ≠ []
  ∧ (chartData
       (state
          (settle
             (Http.fetchShieldedSupplyData
                (Http.Responded
                   {| Http.status := 404; Http.json := inl two_points |}))
             mount))
     = two_points
     ↔ ∃ r, Http.Responded
              {| Http.status := 404; Http.json := inl two_points |}
            = Http.Responded r
            ∧ Http.ok r = true ∧ Http.json r = inl two_points).
Proof.
  assert (Hne : two_points ≠ []) by discriminate.
  split; [exact Hne|].
  apply (only_ok_responses_store_data
           (Http.Responded {| Http.status := 404; Http.json := inl two_points |})
           two_points Hne).
Defined.

Lemma tooltip_handler_is_safe_witness :
  render {| chartData := two_points; isLoading := false; error := None |}
  = ChartView
  ∧ Z.of_nat (length two_points) < 2 ^ 31
  ∧ ∃ d, handleTooltip MdY.Date_parse_mdY two_points Js.NaN = Val d
         ∧ d ∈ two_points.
Proof.
  split; [reflexivity|]. split; [reflexivity|].
  apply (tooltip_handler_is_safe MdY.Date_parse_mdY
           {| chartData := two_points; isLoading := false; error := None |}
           Js.NaN); reflexivity.
Defined.

Lemma invalid_pointer_selects_last_witness :
  last two_points = Some second_point
  ∧ handleTooltip MdY.Date_parse_mdY two_points Js.NaN = Val second_point.
Proof.
  split; [reflexivity|].
  apply (invalid_pointer_selects_last MdY.Date_parse_mdY two_points
           second_point).
  reflexivity.
Defined.

Lemma exact_date_is_selected_witness :
  sorted_series MdY.Date_parse_mdY two_points = true
  ∧ Z.of_nat (length two_points) < 2 ^ 31
  ∧ second_point ∈ two_points
  ∧ getDate MdY.Date_parse_mdY second_point = Some 1609459200000
  ∧ ∃ d', handleTooltip MdY.Date_parse_mdY two_points (Some 1609459200000)
          = Val d'
          ∧ d' ∈ two_points
          ∧ getDate MdY.Date_parse_mdY d' = Some 1609459200000.
Proof.
  assert (Hin : second_point ∈ two_points).
  { apply list_elem_of_further, list_elem_of_here. }
  split; [reflexivity|]. split; [reflexivity|]. split; [exact Hin|].
  split; [reflexivity|].
  apply (exact_date_is_selected MdY.Date_parse_mdY two_points second_point
           1609459200000); [reflexivity|reflexivity|exact Hin|reflexivity].
Defined.

Lemma area_spans_inner_width_witness :
  sorted_series MdY.Date_parse_mdY two_points = true
  ∧ head two_points = Some first_point
  ∧ last two_points = Some second_point
  ∧ (1577836800000 < 1609459200000)%Z
  ∧ ∃ xf xl,
      areaX MdY.Date_parse_mdY two_points layout_with_top_margin first_point
      = Some xf
      ∧ (xf == margin_left layout_with_top_margin)%Q
      ∧ areaX MdY.Date_parse_mdY two_points layout_with_top_margin second_point
        = Some xl
      ∧ (xl == innerWidth layout_with_top_margin
               + margin_left layout_with_top_margin)%Q.
Proof.
  split; [reflexivity|]. split; [reflexivity|]. split; [reflexivity|].
  split; [reflexivity|].
  apply (area_spans_inner_width MdY.Date_parse_mdY two_points
           layout_with_top_margin first_point second_point
           1577836800000 1609459200000); reflexivity.
Defined.

Lemma label_of_present_entry_witness :
  ("sprout", "sproutSupply", "Sprout") ∈ labelled_pools
  ∧ balances !! "sproutSupply"
    = Some (Some {| PngExport.timestamp := "2024-01-01";
                    PngExport.supply := 1234567 |})
  ∧ PngExport.poolQtyText PngExport.toLocaleString_enUS "sprout" balances
    = "1,234,567 ZEC in Sprout Pool".
Proof.
  assert (Hpool : ("sprout", "sproutSupply", "Sprout") ∈ labelled_pools)
    by apply list_elem_of_here.
  split; [exact Hpool|]. split; [reflexivity|].
  apply (label_of_present_entry PngExport.toLocaleString_enUS balances
           "sprout" "sproutSupply" "Sprout"
           {| PngExport.timestamp := "2024-01-01";
              PngExport.supply := 1234567 |} Hpool).
  reflexivity.
Defined.

Lemma export_keeps_other_children_witness :
  well_formed page
  ∧ well_formed
      (PngExport.handleSaveToPng PngExport.toLocaleString_enUS
         rasterizer_throws "default" balances page)
  ∧ (PngExport.current
       (PngExport.handleSaveToPng PngExport.toLocaleString_enUS
          rasterizer_throws "default" balances page)
     = Some [svg]
     ∨ PngExport.current
         (PngExport.handleSaveToPng PngExport.toLocaleString_enUS
            rasterizer_throws "default" balances page)
       = Some [svg; PngExport.overlay PngExport.toLocaleString_enUS
                          "default" balances page]).
Proof.
  assert (Hwf : well_formed page) by (repeat constructor).
  split; [exact Hwf|].
  destruct (export_keeps_other_children PngExport.toLocaleString_enUS
              rasterizer_throws "default" balances page Hwf)
    as (Hwf' & _ & Hchildren & _).
  split; [exact Hwf'|]. exact (Hchildren [svg] eq_refl).
Defined.

Lemma failed_exports_accumulate_witness :
  (∀ x, ∃ err, rasterizer_throws x = PngExport.RasterError err)
  ∧ well_formed page
  ∧ ∃ spans,
      PngExport.current
        (Nat.iter 3
           (PngExport.handleSaveToPng PngExport.toLocaleString_enUS
              rasterizer_throws "sprout" balances) page)
      = Some (svg :: spans)
      ∧ length spans = 3%nat
      ∧ Forall (fun s => PngExport.tagName s = "span"
                         ∧ PngExport.textContent s
                           = PngExport.poolQtyText
                               PngExport.toLocaleString_enUS "sprout" balances)
          spans
      ∧ PngExport.downloads
          (Nat.iter 3
             (PngExport.handleSaveToPng PngExport.toLocaleString_enUS
                rasterizer_throws "sprout" balances) page)
        = PngExport.downloads page.
Proof.
  assert (Hfail : ∀ x, ∃ err, rasterizer_throws x = PngExport.RasterError err).
  { intros x. by eexists. }
  assert (Hwf : well_formed page) by (repeat constructor).
  split; [exact Hfail|]. split; [exact Hwf|].
  apply (failed_exports_accumulate PngExport.toLocaleString_enUS
           rasterizer_throws "sprout" balances page [svg] 3 Hfail Hwf eq_refl).
Defined.

Lemma successful_exports_leave_no_trace_witness :
  (∀ x, ∃ png, rasterizer_ok x = PngExport.Canvas png)
  ∧ well_formed page
  ∧ PngExport.current
      (Nat.iter 3
         (PngExport.handleSaveToPng PngExport.toLocaleString_enUS
            rasterizer_ok "orchard" balances) page)
    = PngExport.current page
  ∧ length (PngExport.downloads
              (Nat.iter 3
                 (PngExport.handleSaveToPng PngExport.toLocaleString_enUS
                    rasterizer_ok "orchard" balances) page))
    = (length (PngExport.downloads page) + 3)%nat
  ∧ PngExport.console
      (Nat.iter 3
         (PngExport.handleSaveToPng PngExport.toLocaleString_enUS
            rasterizer_ok "orchard" balances) page)
    = PngExport.console page.
Proof.
  assert (Hok : ∀ x, ∃ png, rasterizer_ok x = PngExport.Canvas png).
  { intros x. by eexists. }
  assert (Hwf : well_formed page) by (repeat constructor).
  split; [exact Hok|]. split; [exact Hwf|].
  apply (successful_exports_leave_no_trace PngExport.toLocaleString_enUS
           rasterizer_ok "orchard" balances page 3 Hok Hwf).
Defined.

End FurtherInstances.
